(** * backblaze_b2_delete_all_old_versions.py: keep the newest version of
      every file of a B2 bucket, delete the others.

    The script is embedded as a program in a small state-and-exit monad.
    The state holds what the process has printed, the external commands it
    has run and the lines still waiting on standard input.  The pieces of
    the Python library the script calls ([subprocess.run], [json.loads],
    [str.splitlines], [str.strip]) are parameters of the embedding. *)

From Stdlib Require Import String Ascii ZArith Bool Lia List Permutation Sorted.
Import ListNotations.
Set Warnings "-register-all".
Local Open Scope string_scope.
Local Open Scope list_scope.

(** ** Data model *)

(** One stored version of one file, with the three fields the script reads:
    [file['fileName']], [version['fileId']], [x['uploadTimestamp']]. *)
Record VersionRecord : Type := mkVersion {
  fileName : string;
  fileId : string;
  uploadTimestamp : Z
}.

(** What [json.loads] returns.  A JSON object is read as a version record:
    the objects [b2 ls --json] emits carry the three fields, with strings for
    [fileName] and [fileId] and an integer for [uploadTimestamp].  An object
    without them (on which the script would raise [KeyError]) and numbers
    with a fraction are outside this model.  A list may hold any values. *)
Inductive pyvalue : Type :=
| PyNone
| PyBool (b : bool)
| PyInt (n : Z)
| PyStr (s : string)
| PyList (l : list pyvalue)
| PyDict (r : VersionRecord).

(** [type(v)], as [isinstance] and the diagnostic of line 71 see it. *)
Inductive pytype : Type :=
| NoneType | type_bool | type_int | type_str | type_list | type_dict.

Definition type_of (v : pyvalue) : pytype :=
  match v with
  | PyNone => NoneType
  | PyBool _ => type_bool
  | PyInt _ => type_int
  | PyStr _ => type_str
  | PyList _ => type_list
  | PyDict _ => type_dict
  end.

(** Python truth value, as tested by [if not file_versions] (line 59). *)
Definition truthy (v : pyvalue) : bool :=
  match v with
  | PyNone => false
  | PyBool b => b
  | PyInt n => negb (n =? 0)%Z
  | PyStr s => negb (s =? "")
  | PyList l => match l with [] => false | _ :: _ => true end
  | PyDict _ => true
  end.

(** An external command, as the [command] list handed to [subprocess.run]. *)
Definition command : Type := list string.

(** What [subprocess.run(..., check=True)] does: it returns the captured
    standard output, or raises [CalledProcessError] when the command exits
    nonzero (the exception carries the captured standard error). *)
Inductive completed : Type :=
| Completed (out : string)
| CalledProcessError (err : string).

(** [json.loads]: a value, or [JSONDecodeError] with its message. *)
Inductive loaded : Type :=
| Loaded (v : pyvalue)
| JSONDecodeError (msg : string).

(** The lines the script prints, one constructor per [print] statement. *)
Inductive line : Type :=
| Error_executing_command (c : command)       (* line 33 *)
| Error_output (err : string)                 (* line 34 *)
| Error_decoding_JSON (msg : string)          (* line 47 *)
| Attempting_single_object                    (* line 48 *)
| Failed_to_parse                             (* line 52 *)
| No_files_found (bucket : string)            (* line 60 *)
| Unexpected_data_type (t : pytype)           (* line 71 *)
| Would_delete (filename version : string)    (* line 82 *)
| Deleting (filename version : string)        (* line 84 *)
| Total_would_be_deleted (n : nat)            (* line 91 *)
| Total_deleted (n : nat)                     (* line 93 *)
| Usage                                       (* line 99 *)
| Dry_run_notice                              (* line 108 *)
| Warning_are_you_sure                        (* line 110 *)
| Operation_cancelled.                        (* line 113 *)

(** Exceptions nothing in the script catches. *)
Inductive exception : Type :=
| TypeError
| EOFError.

(** ** The monad: state, [sys.exit] and uncaught exceptions *)

Record state : Type := mkState {
  printed : list line;      (* standard output, oldest line first *)
  calls : list command;     (* commands run so far, oldest first *)
  stdin : list string       (* lines not yet read *)
}.

Inductive outcome (A : Type) : Type :=
| Return (a : A)
| SysExit (code : Z)
| Raised (e : exception).
Arguments Return {A} a.
Arguments SysExit {A} code.
Arguments Raised {A} e.

Definition M (A : Type) : Type := state -> outcome A * state.

Definition ret {A} (a : A) : M A := fun s => (Return a, s).

Definition bind {A B} (m : M A) (k : A -> M B) : M B :=
  fun s =>
    match m s with
    | (Return a, s') => k a s'
    | (SysExit c, s') => (SysExit c, s')
    | (Raised e, s') => (Raised e, s')
    end.

Notation "x <- m ;; k" := (bind m (fun x => k))
  (at level 61, m at next level, right associativity).
Notation "m ;; k" := (bind m (fun _ => k))
  (at level 61, right associativity).

Definition print (l : line) : M unit :=
  fun s => (Return tt, mkState (printed s ++ [l]) (calls s) (stdin s)).

Definition sys_exit {A} (code : Z) : M A := fun s => (SysExit code, s).

Definition raise {A} (e : exception) : M A := fun s => (Raised e, s).

(** [input()]: the next line of standard input, [EOFError] when there is
    none. *)
Definition input : M string :=
  fun s =>
    match stdin s with
    | [] => (Raised EOFError, s)
    | l :: rest => (Return l, mkState (printed s) (calls s) rest)
    end.

(** The exit status of the process: 0 when the script runs to its end, the
    argument of [sys.exit], 1 after an uncaught exception. *)
Definition exit_code {A} (o : outcome A) : Z :=
  match o with
  | Return _ => 0
  | SysExit c => c
  | Raised _ => 1
  end.

Definition initial (lines : list string) : state := mkState [] [] lines.

(** ** The Python library, as far as the script calls it *)

Class Runtime : Type := {
  (** [subprocess.run(command, capture_output=True, text=True, check=True)];
      the answer may depend on the commands run before. *)
  subprocess_run : list command -> command -> completed;
  (** [json.loads] *)
  json_loads : string -> loaded;
  (** [str.splitlines] *)
  splitlines : string -> list string;
  (** [str.strip] *)
  strip : string -> string
}.

(** [str.lower], on ASCII letters; other characters are left as they are.
    The script only compares the result with ['y'], and the one character
    other than [y] that Python lower-cases into [y] is [Y]. *)
Definition lower_ascii (c : ascii) : ascii :=
  let n := nat_of_ascii c in
  if (65 <=? n)%nat && (n <=? 90)%nat then ascii_of_nat (n + 32) else c.

Fixpoint lower (s : string) : string :=
  match s with
  | EmptyString => EmptyString
  | String c rest => String (lower_ascii c) (lower rest)
  end.

(** ** The selection: grouping and sorting *)

(** [files], the [defaultdict(list)] of line 65: a dict keeps its keys in
    insertion order, which is the order [files.items()] yields them in. *)
Definition groups : Type := list (string * list VersionRecord).

(** [files[file['fileName']].append(file)] (line 67). *)
Fixpoint append_version (files : groups) (file : VersionRecord) : groups :=
  match files with
  | [] => [(fileName file, [file])]
  | (name, versions) :: rest =>
      if name =? fileName file
      then (name, versions ++ [file]) :: rest
      else (name, versions) :: append_version rest file
  end.

(** [sorted(versions, key=lambda x: x['uploadTimestamp'], reverse=True)]
    (line 77): Python's sort is stable, also under [reverse=True], so a
    record stays before the records after it whose timestamp is not
    greater. *)
Fixpoint insert_desc (x : VersionRecord) (l : list VersionRecord)
  : list VersionRecord :=
  match l with
  | [] => [x]
  | y :: l' =>
      if (uploadTimestamp y <=? uploadTimestamp x)%Z
      then x :: y :: l'
      else y :: insert_desc x l'
  end.

Definition sorted_desc (versions : list VersionRecord) : list VersionRecord :=
  fold_right insert_desc [] versions.

(** [sorted_versions[1:]] (line 80). *)
Definition old_versions (versions : list VersionRecord) : list VersionRecord :=
  tl (sorted_desc versions).

(** [sorted_versions[0]], the version no delete is issued for. *)
Definition newest (versions : list VersionRecord) : option VersionRecord :=
  hd_error (sorted_desc versions).

(** The deletion candidates in the order the two loops visit them: for every
    group, in the order of [files.items()], the sorted versions but the
    first, each with the [filename] of its group. *)
Definition candidates (files : groups) : list (string * VersionRecord) :=
  flat_map (fun item => map (pair (fst item)) (old_versions (snd item))) files.

(** The versions the loops skip: [sorted_versions[0]] of every group. *)
Definition retained (files : groups) : list VersionRecord :=
  flat_map (fun item => match newest (snd item) with
                        | Some r => [r]
                        | None => []
                        end) files.

(** The groups the loop of lines 66-67 builds from a list of records. *)
Definition group_records (l : list VersionRecord) : groups :=
  fold_left append_version l [].

(** The records of [l] named [n], in the order of [l]. *)
Definition versions_of (n : string) (l : list VersionRecord)
  : list VersionRecord :=
  filter (fun r => fileName r =? n) l.

Definition not_older (a b : VersionRecord) : Prop :=
  (uploadTimestamp b <= uploadTimestamp a)%Z.

Definition same_time (t : Z) (r : VersionRecord) : bool :=
  (uploadTimestamp r =? t)%Z.

(** The newest record of a list in the spec's words: the record with the
    greatest timestamp, the first in input order among equals. *)
Fixpoint first_greatest (l : list VersionRecord) : option VersionRecord :=
  match l with
  | [] => None
  | x :: rest =>
      match first_greatest rest with
      | None => Some x
      | Some y =>
          if (uploadTimestamp x <? uploadTimestamp y)%Z then Some y else Some x
      end
  end.

(** The distinct file names of a listing, in the order of first occurrence. *)
Definition add_key (keys : list string) (k : string) : list string :=
  if existsb (fun k' => k' =? k) keys then keys else keys ++ [k].

Definition distinct_names (l : list VersionRecord) : list string :=
  fold_left add_key (map fileName l) [].

(** The state after printing [lines] and running [cmds]. *)
Definition log (s : state) (lines : list line) (cmds : list command) : state :=
  mkState (printed s ++ lines) (calls s ++ cmds) (stdin s).

Definition would_delete_line (c : string * VersionRecord) : line :=
  Would_delete (fst c) (fileId (snd c)).

Definition deleting_line (c : string * VersionRecord) : line :=
  Deleting (fst c) (fileId (snd c)).

Definition candidate_command (c : string * VersionRecord) : command :=
  ["b2"; "delete-file-version"; fst c; fileId (snd c)].

(** The names of a list, each at its first occurrence. *)
Fixpoint first_occurrences (names : list string) : list string :=
  match names with
  | [] => []
  | n :: rest => n :: filter (fun m => negb (m =? n)) (first_occurrences rest)
  end.

(** [a] was uploaded strictly after [b]. *)
Definition newer (a b : VersionRecord) : Prop :=
  (uploadTimestamp b < uploadTimestamp a)%Z.

(** Where [m] calls [sys.exit], it is with status 1. *)
Definition exits_1 {A} (m : M A) : Prop :=
  forall s c s', m s = (SysExit c, s') -> c = 1%Z.

Section Script.
Context {rt : Runtime}.

(** ** run_command (lines 27-35) *)
Definition run_command (c : command) : M string :=
  fun s =>
    let s' := mkState (printed s) (calls s ++ [c]) (stdin s) in
    match subprocess_run (calls s) c with
    | Completed out => (Return out, s')
    | CalledProcessError err =>
        (print (Error_executing_command c) ;;
         print (Error_output err) ;;
         sys_exit 1) s'
    end.

(** ** get_file_versions (lines 38-53) *)

(** The list comprehension of line 45: [json.loads] on every line that is
    not blank, in order; the first line that does not parse raises. *)
Fixpoint loads_lines (lines : list string) : list pyvalue + string :=
  match lines with
  | [] => inl []
  | l :: rest =>
      if strip l =? "" then loads_lines rest
      else
        match json_loads l with
        | JSONDecodeError msg => inr msg
        | Loaded v =>
            match loads_lines rest with
            | inl vs => inl (v :: vs)
            | inr msg => inr msg
            end
        end
  end.

Definition list_command (bucket_name : string) : command :=
  ["b2"; "ls"; "--json"; "--recursive"; "--versions"; String.append "b2://" bucket_name].

Definition get_file_versions (bucket_name : string) : M pyvalue :=
  output <- run_command (list_command bucket_name) ;;
  match loads_lines (splitlines output) with
  | inl vs => ret (PyList vs)
  | inr e =>
      print (Error_decoding_JSON e) ;;
      print Attempting_single_object ;;
      match json_loads output with
      | Loaded v => ret v
      | JSONDecodeError _ => print Failed_to_parse ;; sys_exit 1
      end
  end.

(** ** delete_old_versions (lines 56-93) *)

(** The loop of lines 66-67; [file['fileName']] raises [TypeError] on a
    list element that is not a dict. *)
Fixpoint group_versions (file_versions : list pyvalue) (files : groups)
  : M groups :=
  match file_versions with
  | [] => ret files
  | PyDict file :: rest => group_versions rest (append_version files file)
  | _ :: _ => raise TypeError
  end.

Definition delete_command (filename : string) (version : VersionRecord)
  : command :=
  ["b2"; "delete-file-version"; filename; fileId version].

(** The body of the inner loop (lines 81-87). *)
Definition delete_version (dry_run : bool) (filename : string)
    (deleted_count : nat) (version : VersionRecord) : M nat :=
  (if dry_run
   then print (Would_delete filename (fileId version))
   else print (Deleting filename (fileId version)) ;;
        _ <- run_command (delete_command filename version) ;;
        ret tt) ;;
  ret (S deleted_count).

(** A [for] loop that threads a local variable through its body. *)
Fixpoint for_each {A B} (l : list A) (body : B -> A -> M B) (acc : B) : M B :=
  match l with
  | [] => ret acc
  | x :: rest => acc' <- body acc x ;; for_each rest body acc'
  end.

(** The body of the outer loop (lines 76-87). *)
Definition delete_group (dry_run : bool) (deleted_count : nat)
    (item : string * list VersionRecord) : M nat :=
  let (filename, versions) := item in
  let sorted_versions := sorted_desc versions in
  for_each (tl sorted_versions) (delete_version dry_run filename) deleted_count.

(** Lines 74-93. *)
Definition delete_and_report (dry_run : bool) (files : groups) : M unit :=
  deleted_count <- for_each files (delete_group dry_run) 0%nat ;;
  if dry_run
  then print (Total_would_be_deleted deleted_count)
  else print (Total_deleted deleted_count).

(** Lines 59-93: what [delete_old_versions] does with the listing. *)
Definition prune (bucket_name : string) (dry_run : bool)
    (file_versions : pyvalue) : M unit :=
  if negb (truthy file_versions)
  then print (No_files_found bucket_name)
  else
    match file_versions with
    | PyList l =>
        files <- group_versions l [] ;;
        delete_and_report dry_run files
    | PyDict r =>
        delete_and_report dry_run [(fileName r, [r])]
    | _ => print (Unexpected_data_type (type_of file_versions))
    end.

Definition delete_old_versions (bucket_name : string) (dry_run : bool)
  : M unit :=
  file_versions <- get_file_versions bucket_name ;;
  prune bucket_name dry_run file_versions.

(** ** The entry point (lines 96-117) *)

(** Lines 107-114: the notice of a dry run, or the warning and the answer
    read from standard input. *)
Definition confirm (dry_run : bool) : M unit :=
  if dry_run
  then print Dry_run_notice
  else
    print Warning_are_you_sure ;;
    answer <- input ;;
    let confirmation := lower answer in
    if negb (confirmation =? "y")
    then print Operation_cancelled ;; sys_exit 0
    else ret tt.

Definition main (argv : list string) : M unit :=
  if (List.length argv <? 2)%nat || (3 <? List.length argv)%nat
  then print Usage ;; sys_exit 1
  else
    let bucket_name := nth 1 argv "" in
    let dry_run := existsb (String.eqb "--dry-run") argv in
    confirm dry_run ;;
    delete_old_versions bucket_name dry_run.

(** ** Notions used to state the properties *)

(** Every delete call of [cs] completes, the calls being made one after the
    other after the commands [h]. *)
Fixpoint deletes_complete (h : list command)
    (cs : list (string * VersionRecord)) : bool :=
  match cs with
  | [] => true
  | c :: rest =>
      match subprocess_run h (candidate_command c) with
      | Completed _ => deletes_complete (h ++ [candidate_command c]) rest
      | CalledProcessError _ => false
      end
  end.

Definition delete_candidate (dry_run : bool) (deleted_count : nat)
    (c : string * VersionRecord) : M nat :=
  delete_version dry_run (fst c) deleted_count (snd c).

(** The state in which [main] calls [delete_old_versions], when it does:
    after the dry-run notice, or after the warning and an answer that
    lower-cases to [y]. *)
Definition start_state (argv : list string) (s : state) : option state :=
  if existsb (String.eqb "--dry-run") argv
  then Some (mkState (printed s ++ [Dry_run_notice]) (calls s) (stdin s))
  else
    match stdin s with
    | [] => None
    | answer :: rest =>
        if lower answer =? "y"
        then Some (mkState (printed s ++ [Warning_are_you_sure]) (calls s) rest)
        else None
    end.

(** The test [if line.strip()] of line 45. *)
Definition nonblank (l : string) : bool := negb (strip l =? "").

End Script.

(** ** A scripted runtime, to run the script on concrete listings *)

Module Demo.

Definition LF : string := String (ascii_of_nat 10) EmptyString.
Definition NEL : string := String (ascii_of_nat 133) EmptyString.
Definition DQ : string := String (ascii_of_nat 34) EmptyString.

(** [str.splitlines] for the line boundaries LF and NEL (U+0085). *)
Fixpoint split_from (current : string -> string) (s : string) : list string :=
  match s with
  | EmptyString =>
      match current EmptyString with
      | EmptyString => []
      | l => [l]
      end
  | String c rest =>
      if (nat_of_ascii c =? 10)%nat || (nat_of_ascii c =? 133)%nat
      then current EmptyString :: split_from (fun t => t) rest
      else split_from (fun t => current (String c t)) rest
  end.

Definition demo_splitlines (s : string) : list string :=
  split_from (fun t => t) s.

Definition is_space (c : ascii) : bool :=
  let n := nat_of_ascii c in
  (n =? 32)%nat || ((9 <=? n)%nat && (n <=? 13)%nat) || (n =? 133)%nat.

Fixpoint lstrip (s : string) : string :=
  match s with
  | EmptyString => EmptyString
  | String c rest => if is_space c then lstrip rest else s
  end.

Fixpoint rstrip (s : string) : string :=
  match s with
  | EmptyString => EmptyString
  | String c rest =>
      match rstrip rest with
      | EmptyString => if is_space c then EmptyString else String c EmptyString
      | rest' => String c rest'
      end
  end.

Definition demo_strip (s : string) : string := rstrip (lstrip s).

Definition quoted (s : string) : string := (DQ ++ s ++ DQ)%string.

(** The JSON text of a version object, on one line and over several. *)
Definition object_text (name id time : string) : string :=
  ("{" ++ quoted "fileName" ++ ": " ++ quoted name ++ ", "
       ++ quoted "fileId" ++ ": " ++ quoted id ++ ", "
       ++ quoted "uploadTimestamp" ++ ": " ++ time ++ "}")%string.

Definition pretty_text (name id time : string) : string :=
  ("{" ++ LF ++ "  " ++ quoted "fileName" ++ ": " ++ quoted name ++ "," ++ LF
       ++ "  " ++ quoted "fileId" ++ ": " ++ quoted id ++ "," ++ LF
       ++ "  " ++ quoted "uploadTimestamp" ++ ": " ++ time ++ LF ++ "}"
       ++ LF)%string.

Definition a100 := mkVersion "a.txt" "id-a100" 100.
Definition a300 := mkVersion "a.txt" "id-a300" 300.
Definition a200 := mkVersion "a.txt" "id-a200" 200.
Definition a250 := mkVersion "a.txt" "id-a250" 250.
Definition a150 := mkVersion "a.txt" "id-a150" 150.
Definition a050 := mkVersion "a.txt" "id-a050" 50.
Definition b100 := mkVersion "b.txt" "id-b100" 100.
Definition b100' := mkVersion "b.txt" "id-b100-again" 100.

(** [json.loads] on the texts the examples use; it raises on any other. *)
Definition documents : list (string * pyvalue) :=
  [ (object_text "a.txt" "id-a100" "100", PyDict a100);
    (object_text "a.txt" "id-a300" "300", PyDict a300);
    (object_text "a.txt" "id-a200" "200", PyDict a200);
    (object_text "a.txt" "id-a250" "250", PyDict a250);
    (object_text "a.txt" "id-a150" "150", PyDict a150);
    (object_text "a.txt" "id-a050" "50", PyDict a050);
    (object_text "b.txt" "id-b100" "100", PyDict b100);
    (object_text "b.txt" "id-b100-again" "100", PyDict b100');
    (pretty_text "a.txt" "id-a100" "100", PyDict a100);
    (quoted ("x" ++ NEL ++ "y"), PyStr ("x" ++ NEL ++ "y"));
    ("7", PyInt 7) ]%string.

Fixpoint lookup (s : string) (table : list (string * pyvalue)) : loaded :=
  match table with
  | [] => JSONDecodeError "not a JSON document"
  | (text, v) :: rest => if text =? s then Loaded v else lookup s rest
  end.

Definition demo_loads (s : string) : loaded := lookup s documents.

(** The listing command prints [listing]; every other command prints
    nothing; the call number [n] (counted from 0) fails when [fails n]. *)
Definition scripted (listing : string) (fails : nat -> bool) : Runtime :=
  {| subprocess_run := fun h c =>
       if fails (length h) then CalledProcessError "simulated failure"
       else match c with
            | "b2" :: "ls" :: _ => Completed listing
            | _ => Completed ""
            end;
     json_loads := demo_loads;
     splitlines := demo_splitlines;
     strip := demo_strip |}.

Definition never : nat -> bool := fun _ => false.

Definition lines_of (texts : list string) : string :=
  fold_right (fun t acc => (t ++ LF ++ acc)%string) EmptyString texts.

(** Three versions of one file, uploaded at 100, 300 and 200. *)
Definition listing_A : string :=
  lines_of [object_text "a.txt" "id-a100" "100";
            object_text "a.txt" "id-a300" "300";
            object_text "a.txt" "id-a200" "200"].

(** Six versions of one file and two of another. *)
Definition listing_F : string :=
  lines_of [object_text "a.txt" "id-a100" "100";
            object_text "b.txt" "id-b100" "100";
            object_text "a.txt" "id-a300" "300";
            object_text "a.txt" "id-a200" "200";
            object_text "b.txt" "id-b100-again" "100";
            object_text "a.txt" "id-a250" "250";
            object_text "a.txt" "id-a150" "150";
            object_text "a.txt" "id-a050" "50"].

End Demo.

(** ** The runs of the examples *)

Module Runs.
Import Demo.

Definition bucket_argv : list string := ["delete.py"; "bucket"].

Definition records_A : list VersionRecord := [a100; a300; a200].

Definition records_F : list VersionRecord :=
  [a100; b100; a300; a200; b100'; a250; a150; a050].

(** The runtime of scenario F: call 0 is the listing, calls 1 and 2 are the
    first two deletes, call 3, the third delete, fails. *)
Definition third_delete_fails : Runtime :=
  scripted listing_F (fun n => (n =? 3)%nat).

Definition first_delete_fails : Runtime :=
  scripted listing_A (fun n => (n =? 1)%nat).

Definition pretty_listing : Runtime :=
  scripted (pretty_text "a.txt" "id-a100" "100") never.

Definition string_listing : Runtime :=
  scripted (quoted ("x" ++ NEL ++ "y")) never.

Definition warned (rest : list string) : state :=
  mkState [Warning_are_you_sure] [] rest.

End Runs.

(** ** The sort *)

Lemma insert_desc_perm x l : Permutation (insert_desc x l) (x :: l).
Proof.
  induction l as [|y l IH]; simpl; [reflexivity|].
  destruct (uploadTimestamp y <=? uploadTimestamp x)%Z; [reflexivity|].
  rewrite IH. apply perm_swap.
Qed.

Lemma sorted_desc_perm l : Permutation (sorted_desc l) l.
Proof.
  induction l as [|x l IH]; simpl; [constructor|].
  unfold sorted_desc in *; simpl.
  rewrite insert_desc_perm. now constructor.
Qed.

Lemma sorted_desc_length l : length (sorted_desc l) = length l.
Proof. apply Permutation_length, sorted_desc_perm. Qed.

Lemma sorted_desc_cons x l : sorted_desc (x :: l) = insert_desc x (sorted_desc l).
Proof. reflexivity. Qed.

(** Inserting [x] splits the list at the first record that is not newer. *)
Lemma insert_desc_split x l :
  exists l1 l2,
    l = l1 ++ l2 /\ insert_desc x l = l1 ++ x :: l2 /\
    Forall (fun y => (uploadTimestamp x < uploadTimestamp y)%Z) l1 /\
    (forall y l2', l2 = y :: l2' -> (uploadTimestamp y <= uploadTimestamp x)%Z).
Proof.
  induction l as [|y l IH]; simpl.
  - exists [], []. repeat split; auto. intros; discriminate.
  - destruct (uploadTimestamp y <=? uploadTimestamp x)%Z eqn:E.
    + exists [], (y :: l). repeat split; auto.
      intros y' l2' H; inversion H; subst. now apply Z.leb_le.
    + destruct IH as (l1 & l2 & -> & Hi & Hall & Hhd).
      exists (y :: l1), l2. repeat split; simpl; auto.
      * now rewrite Hi.
      * constructor; auto. apply Z.leb_gt in E. lia.
Qed.

Lemma filter_insert_desc_same t x l :
  uploadTimestamp x = t ->
  filter (same_time t) (insert_desc x l) = x :: filter (same_time t) l.
Proof.
  intros Hx. induction l as [|y l IH]; simpl.
  - unfold same_time. now rewrite Hx, Z.eqb_refl.
  - destruct (uploadTimestamp y <=? uploadTimestamp x)%Z eqn:E; simpl.
    + unfold same_time at 1. now rewrite Hx, Z.eqb_refl.
    + apply Z.leb_gt in E.
      assert (same_time t y = false) as ->
        by (unfold same_time; apply Z.eqb_neq; lia).
      exact IH.
Qed.

Lemma filter_insert_desc_other t x l :
  uploadTimestamp x <> t ->
  filter (same_time t) (insert_desc x l) = filter (same_time t) l.
Proof.
  intros Hx.
  assert (Hf : same_time t x = false) by (unfold same_time; now apply Z.eqb_neq).
  induction l as [|y l IH]; simpl.
  - now rewrite Hf.
  - destruct (uploadTimestamp y <=? uploadTimestamp x)%Z; simpl.
    + now rewrite Hf.
    + now rewrite IH.
Qed.

Lemma sorted_desc_stable t l :
  filter (same_time t) (sorted_desc l) = filter (same_time t) l.
Proof.
  induction l as [|x l IH]; [reflexivity|].
  rewrite sorted_desc_cons. simpl.
  destruct (Z.eq_dec (uploadTimestamp x) t) as [E|E].
  - rewrite (filter_insert_desc_same t x _ E), IH.
    unfold same_time at 2. now rewrite E, Z.eqb_refl.
  - rewrite (filter_insert_desc_other t x _ E), IH.
    unfold same_time at 2.
    now apply Z.eqb_neq in E as ->.
Qed.


Lemma insert_desc_sorted x l :
  StronglySorted not_older l -> StronglySorted not_older (insert_desc x l).
Proof.
  induction 1 as [|y l Hs IH Hy]; simpl.
  - repeat constructor.
  - destruct (uploadTimestamp y <=? uploadTimestamp x)%Z eqn:E.
    + apply Z.leb_le in E. constructor; [now constructor|].
      constructor; [exact E|].
      eapply Forall_impl; [|exact Hy]. unfold not_older. intros; lia.
    + apply Z.leb_gt in E. constructor; [exact IH|].
      apply (Permutation_Forall (Permutation_sym (insert_desc_perm x l))).
      constructor; [unfold not_older; lia | exact Hy].
Qed.

Lemma sorted_desc_sorted l : StronglySorted not_older (sorted_desc l).
Proof.
  induction l as [|x l IH]; [constructor|].
  rewrite sorted_desc_cons. now apply insert_desc_sorted.
Qed.

Lemma filter_split {A} (p : A -> bool) l u a v :
  filter p l = u ++ a :: v ->
  exists l1 l2, l = l1 ++ a :: l2 /\ filter p l1 = u /\ filter p l2 = v.
Proof.
  revert u. induction l as [|x l IH]; intros u H; simpl in H.
  - destruct u; discriminate.
  - destruct (p x) eqn:E.
    + destruct u as [|y u]; simpl in H; injection H as Hx Ht.
      * subst. exists [], l. auto.
      * subst y. destruct (IH u Ht) as (l1 & l2 & -> & H1 & H3).
        exists (x :: l1), l2. simpl. rewrite E, H1. auto.
    + destruct (IH u H) as (l1 & l2 & -> & H1 & H3).
      exists (x :: l1), l2. simpl. rewrite E. auto.
Qed.

Lemma sorted_desc_keeps_order versions l1 a l2 b l3 :
  versions = l1 ++ a :: l2 ++ b :: l3 ->
  uploadTimestamp a = uploadTimestamp b ->
  exists m1 m2 m3, sorted_desc versions = m1 ++ a :: m2 ++ b :: m3.
Proof.
  intros Hv Hab.
  pose proof (sorted_desc_stable (uploadTimestamp a) versions) as H.
  assert (Ha : same_time (uploadTimestamp a) a = true)
    by (unfold same_time; apply Z.eqb_refl).
  assert (Hb : same_time (uploadTimestamp a) b = true)
    by (unfold same_time; rewrite Hab; apply Z.eqb_refl).
  rewrite Hv in H at 2.
  rewrite filter_app in H. simpl in H. rewrite Ha in H.
  rewrite filter_app in H. simpl in H. rewrite Hb in H.
  destruct (filter_split _ _ _ _ _ H) as (m1 & rest & Hs & _ & Hrest).
  destruct (filter_split _ _ _ _ _ Hrest) as (m2 & m3 & -> & _ & _).
  exists m1, m2, m3. exact Hs.
Qed.

Lemma newest_cons x l :
  newest (x :: l) =
  match newest l with
  | None => Some x
  | Some y => if (uploadTimestamp y <=? uploadTimestamp x)%Z then Some x else Some y
  end.
Proof.
  unfold newest. rewrite sorted_desc_cons.
  destruct (sorted_desc l) as [|y s]; simpl; [reflexivity|].
  now destruct (uploadTimestamp y <=? uploadTimestamp x)%Z.
Qed.

Lemma newest_first_greatest l : newest l = first_greatest l.
Proof.
  induction l as [|x l IH]; [reflexivity|].
  rewrite newest_cons, IH. simpl.
  destruct (first_greatest l) as [y|]; [|reflexivity].
  rewrite Z.leb_antisym. now destruct (uploadTimestamp x <? uploadTimestamp y)%Z.
Qed.

Lemma first_greatest_split l r :
  first_greatest l = Some r ->
  exists pre post,
    l = pre ++ r :: post /\
    Forall (fun y => (uploadTimestamp y < uploadTimestamp r)%Z) pre /\
    Forall (fun y => (uploadTimestamp y <= uploadTimestamp r)%Z) post.
Proof.
  revert r. induction l as [|x l IH]; intros r H; [discriminate|].
  simpl in H. destruct (first_greatest l) as [y|] eqn:E.
  - destruct (IH y eq_refl) as (pre & post & -> & Hpre & Hpost).
    destruct (uploadTimestamp x <? uploadTimestamp y)%Z eqn:C;
      inversion H; subst; clear H.
    + apply Z.ltb_lt in C.
      exists (x :: pre), post. repeat split; auto.
    + apply Z.ltb_ge in C.
      exists [], (pre ++ y :: post). repeat split; auto.
      apply Forall_app; split.
      * eapply Forall_impl; [|exact Hpre]. simpl; intros; lia.
      * constructor; [lia|].
        eapply Forall_impl; [|exact Hpost]. simpl; intros; lia.
  - inversion H; subst. destruct l as [|z l].
    + exists [], []. repeat split; auto.
    + simpl in E. destruct (first_greatest l) as [w|];
        [destruct (uploadTimestamp z <? uploadTimestamp w)%Z|]; discriminate.
Qed.

Lemma newest_nonempty l : l <> [] -> exists r, newest l = Some r.
Proof.
  destruct l as [|x l]; [congruence|]. intros _.
  rewrite newest_cons. destruct (newest l) as [y|]; [|eauto].
  destruct (uploadTimestamp y <=? uploadTimestamp x)%Z; eauto.
Qed.

Lemma newest_old_versions l r :
  newest l = Some r -> sorted_desc l = r :: old_versions l.
Proof.
  unfold newest, old_versions.
  destruct (sorted_desc l); simpl; intros H; inversion H; reflexivity.
Qed.

Lemma newest_old_perm l r :
  newest l = Some r -> Permutation (r :: old_versions l) l.
Proof.
  intros H. rewrite <- (newest_old_versions l r H). apply sorted_desc_perm.
Qed.

Lemma old_versions_length l : length (old_versions l) = (length l - 1)%nat.
Proof.
  unfold old_versions. rewrite <- (sorted_desc_length l).
  destruct (sorted_desc l); simpl; lia.
Qed.

(** ** The grouping *)

Lemma versions_of_snoc n l x :
  versions_of n (l ++ [x]) =
  versions_of n l ++ (if fileName x =? n then [x] else []).
Proof. unfold versions_of. now rewrite filter_app. Qed.

Lemma versions_of_absent n l :
  ~ In n (map fileName l) -> versions_of n l = [].
Proof.
  induction l as [|x l IH]; simpl; intros H; [reflexivity|].
  destruct (fileName x =? n) eqn:E.
  - apply String.eqb_eq in E. tauto.
  - apply IH. tauto.
Qed.

Lemma versions_of_present n l :
  In n (map fileName l) -> versions_of n l <> [].
Proof.
  induction l as [|x l IH]; simpl; intros H; [tauto|].
  destruct (fileName x =? n) eqn:E; [discriminate|].
  apply IH. destruct H as [H|H]; [|exact H].
  apply String.eqb_neq in E. tauto.
Qed.

Lemma existsb_key_In keys k :
  existsb (fun k' => k' =? k) keys = true <-> In k keys.
Proof.
  rewrite existsb_exists. split.
  - intros (k' & Hin & E). apply String.eqb_eq in E. now subst.
  - intros H. exists k. split; [exact H|apply String.eqb_refl].
Qed.

Lemma add_key_In keys k n : In n (add_key keys k) <-> In n keys \/ n = k.
Proof.
  unfold add_key. destruct (existsb _ keys) eqn:E.
  - apply existsb_key_In in E. split; [tauto|]. intros [H| ->]; auto.
  - rewrite in_app_iff. simpl. intuition.
Qed.

Lemma add_key_NoDup keys k : NoDup keys -> NoDup (add_key keys k).
Proof.
  intros H. unfold add_key. destruct (existsb _ keys) eqn:E; [exact H|].
  assert (~ In k keys) by (rewrite <- existsb_key_In; congruence).
  apply NoDup_rev in H. rewrite <- (rev_involutive (keys ++ [k])).
  apply NoDup_rev. rewrite rev_app_distr. simpl. constructor; [|exact H].
  now rewrite <- in_rev.
Qed.

Lemma distinct_names_snoc l x :
  distinct_names (l ++ [x]) = add_key (distinct_names l) (fileName x).
Proof. unfold distinct_names. now rewrite map_app, fold_left_app. Qed.

Lemma distinct_names_In l n : In n (distinct_names l) <-> In n (map fileName l).
Proof.
  induction l as [|x l IH] using rev_ind; [reflexivity|].
  rewrite distinct_names_snoc, add_key_In, IH, map_app, in_app_iff.
  simpl. intuition.
Qed.

Lemma distinct_names_NoDup l : NoDup (distinct_names l).
Proof.
  induction l as [|x l IH] using rev_ind; [constructor|].
  rewrite distinct_names_snoc. now apply add_key_NoDup.
Qed.

Lemma distinct_names_count l :
  length (distinct_names l) = length (nodup string_dec (map fileName l)).
Proof.
  apply Permutation_length, NoDup_Permutation.
  - apply distinct_names_NoDup.
  - apply NoDup_nodup.
  - intros n. now rewrite distinct_names_In, nodup_In.
Qed.

Lemma append_version_keyed keys l x :
  NoDup keys ->
  append_version (map (fun n => (n, versions_of n l)) keys) x =
  if existsb (fun k' => k' =? fileName x) keys
  then map (fun n => (n, versions_of n (l ++ [x]))) keys
  else map (fun n => (n, versions_of n l)) keys ++ [(fileName x, [x])].
Proof.
  induction keys as [|k ks IH]; intros Hnd; [reflexivity|].
  inversion Hnd as [|? ? Hk Hks]; subst. simpl.
  destruct (k =? fileName x) eqn:E.
  - apply String.eqb_eq in E. subst k. simpl. f_equal.
    + rewrite versions_of_snoc, String.eqb_refl. reflexivity.
    + apply map_ext_in. intros n Hn. rewrite versions_of_snoc.
      destruct (fileName x =? n) eqn:E'; [|now rewrite app_nil_r].
      apply String.eqb_eq in E'. congruence.
  - simpl. rewrite (IH Hks).
    assert (Hk' : versions_of k (l ++ [x]) = versions_of k l).
    { rewrite versions_of_snoc. rewrite String.eqb_sym, E. apply app_nil_r. }
    destruct (existsb _ ks); simpl; now rewrite ?Hk'.
Qed.

(** The groups are the distinct names, in the order of first occurrence, each
    with its records in input order. *)
Lemma group_records_spec l :
  group_records l = map (fun n => (n, versions_of n l)) (distinct_names l).
Proof.
  induction l as [|x l IH] using rev_ind; [reflexivity|].
  unfold group_records in *. rewrite fold_left_app. simpl. rewrite IH.
  rewrite append_version_keyed by apply distinct_names_NoDup.
  rewrite distinct_names_snoc. unfold add_key.
  destruct (existsb _ (distinct_names l)) eqn:E; [reflexivity|].
  assert (Hx : ~ In (fileName x) (distinct_names l))
    by (rewrite <- existsb_key_In; congruence).
  rewrite map_app. simpl. f_equal.
  - apply map_ext_in. intros n Hn. rewrite versions_of_snoc.
    destruct (fileName x =? n) eqn:E'; [|now rewrite app_nil_r].
    apply String.eqb_eq in E'. congruence.
  - rewrite versions_of_snoc, String.eqb_refl.
    rewrite versions_of_absent; [reflexivity|].
    now rewrite <- distinct_names_In.
Qed.

Lemma group_records_keys l : map fst (group_records l) = distinct_names l.
Proof.
  rewrite group_records_spec, map_map. simpl. apply map_id.
Qed.

Lemma group_records_nonempty l :
  Forall (fun item => snd item <> []) (group_records l).
Proof.
  rewrite group_records_spec. apply Forall_forall. intros item Hin.
  apply in_map_iff in Hin. destruct Hin as (n & <- & Hn). simpl.
  apply versions_of_present. now apply distinct_names_In.
Qed.

Lemma append_version_concat files x :
  Permutation (concat (map snd (append_version files x)))
              (concat (map snd files) ++ [x]).
Proof.
  induction files as [|[n vs] files IH]; simpl; [reflexivity|].
  destruct (n =? fileName x); simpl.
  - rewrite <- !app_assoc. apply Permutation_app_head.
    apply Permutation_app_comm.
  - rewrite IH. now rewrite app_assoc.
Qed.

Lemma fold_append_version_concat l files :
  Permutation (concat (map snd (fold_left append_version l files)))
              (concat (map snd files) ++ l).
Proof.
  revert files. induction l as [|x l IH]; intros files; simpl.
  - now rewrite app_nil_r.
  - rewrite IH, append_version_concat, <- app_assoc. reflexivity.
Qed.

Lemma group_records_partition l :
  Permutation (concat (map snd (group_records l))) l.
Proof. apply (fold_append_version_concat l []). Qed.

(** ** Candidates and retained records *)

Lemma retained_candidates_perm files :
  Permutation (retained files ++ map snd (candidates files))
              (concat (map snd files)).
Proof.
  induction files as [|[n vs] files IH]; simpl; [constructor|].
  unfold candidates, retained in *. simpl.
  rewrite map_app, map_map. simpl. rewrite map_id.
  destruct (newest vs) as [r|] eqn:E.
  - apply Permutation_trans
      with ((r :: old_versions vs) ++
            (flat_map (fun item => match newest (snd item) with
                                   | Some r => [r]
                                   | None => []
                                   end) files ++
             map snd (flat_map (fun item => map (pair (fst item))
                                             (old_versions (snd item))) files))).
    + simpl. constructor. rewrite !app_assoc.
      apply Permutation_app_tail, Permutation_app_comm.
    + apply Permutation_app; [now apply newest_old_perm | exact IH].
  - simpl. assert (vs = []) as ->.
    { destruct vs; [reflexivity|].
      destruct (newest_nonempty (v :: vs)) as [r Hr]; congruence. }
    simpl. exact IH.
Qed.

Lemma retained_length files :
  Forall (fun item => snd item <> []) files ->
  length (retained files) = length files.
Proof.
  induction 1 as [|[n vs] files Hne _ IH]; [reflexivity|].
  unfold retained in *. simpl.
  destruct (newest_nonempty vs Hne) as [r ->]. simpl. now rewrite IH.
Qed.

Lemma retained_spec l :
  retained (group_records l) =
  flat_map (fun n => match first_greatest (versions_of n l) with
                     | Some r => [r]
                     | None => []
                     end) (distinct_names l).
Proof.
  rewrite group_records_spec. unfold retained.
  induction (distinct_names l) as [|n ns IH]; [reflexivity|].
  simpl. now rewrite IH, newest_first_greatest.
Qed.

Lemma candidates_spec l :
  candidates (group_records l) =
  flat_map (fun n => map (pair n) (old_versions (versions_of n l)))
           (distinct_names l).
Proof.
  rewrite group_records_spec. unfold candidates.
  induction (distinct_names l) as [|n ns IH]; [reflexivity|].
  simpl. now rewrite IH.
Qed.

Lemma candidates_count l :
  length (candidates (group_records l)) =
  (length l - length (nodup string_dec (map fileName l)))%nat.
Proof.
  pose proof (retained_candidates_perm (group_records l)) as P.
  rewrite group_records_partition in P.
  apply Permutation_length in P. rewrite length_app, length_map in P.
  rewrite retained_length in P by apply group_records_nonempty.
  rewrite <- distinct_names_count, <- group_records_keys, length_map.
  lia.
Qed.

(** ** The loops *)

Lemma log_nil s : log s [] [] = s.
Proof. destruct s. unfold log. simpl. now rewrite !app_nil_r. Qed.

Lemma log_log s l1 c1 l2 c2 :
  log (log s l1 c1) l2 c2 = log s (l1 ++ l2) (c1 ++ c2).
Proof. unfold log. simpl. now rewrite !app_assoc. Qed.

Lemma print_log l s : print l s = (Return tt, log s [l] []).
Proof. unfold print, log. now rewrite app_nil_r. Qed.

Section Loops.
Context {rt : Runtime}.

Lemma for_each_app {A B} (l1 l2 : list A) (body : B -> A -> M B) acc s :
  for_each (l1 ++ l2) body acc s =
  (acc' <- for_each l1 body acc ;; for_each l2 body acc') s.
Proof.
  revert acc s. induction l1 as [|x l1 IH]; intros acc s; simpl.
  - reflexivity.
  - unfold bind. destruct (body acc x s) as [[a|c|e] s']; auto.
Qed.

Lemma for_each_map {A A' B} (f : A -> A') (l : list A) (body : B -> A' -> M B)
    acc s :
  for_each (map f l) body acc s = for_each l (fun b a => body b (f a)) acc s.
Proof.
  revert acc s. induction l as [|x l IH]; intros acc s; simpl; [reflexivity|].
  unfold bind. destruct (body acc (f x) s) as [[a|c|e] s']; auto.
Qed.

(** The two nested loops visit the candidates one after the other. *)
Lemma for_each_groups dry_run files n s :
  for_each files (delete_group dry_run) n s =
  for_each (candidates files) (delete_candidate dry_run) n s.
Proof.
  revert n s. induction files as [|[name vs] files IH]; intros n s;
    [reflexivity|].
  unfold candidates. simpl. rewrite for_each_app.
  unfold bind at 1 2. fold (old_versions vs). rewrite for_each_map.
  unfold delete_candidate at 1. simpl.
  destruct (for_each (old_versions vs) _ n s) as [[a|c|e] s']; auto.
Qed.

Lemma run_command_completed c out s :
  subprocess_run (calls s) c = Completed out ->
  run_command c s = (Return out, log s [] [c]).
Proof.
  intros H. unfold run_command. rewrite H. unfold log.
  now rewrite app_nil_r.
Qed.

Lemma run_command_failed c err s :
  subprocess_run (calls s) c = CalledProcessError err ->
  run_command c s =
  (SysExit 1, log s [Error_executing_command c; Error_output err] [c]).
Proof.
  intros H. unfold run_command. rewrite H. unfold bind, print, sys_exit, log.
  simpl. now rewrite <- app_assoc.
Qed.

Lemma delete_candidate_dry n c s :
  delete_candidate true n c s = (Return (S n), log s [would_delete_line c] []).
Proof.
  unfold delete_candidate, delete_version, bind, print, ret, log. simpl.
  now rewrite app_nil_r.
Qed.

Lemma delete_candidate_completed n c out s :
  subprocess_run (calls s) (candidate_command c) = Completed out ->
  delete_candidate false n c s =
  (Return (S n), log s [deleting_line c] [candidate_command c]).
Proof.
  intros H.
  unfold delete_candidate, delete_version, bind, print, run_command, ret, log.
  change (delete_command (fst c) (snd c)) with (candidate_command c).
  cbn [printed calls stdin]. now rewrite H.
Qed.

Lemma delete_candidate_failed n c err s :
  subprocess_run (calls s) (candidate_command c) = CalledProcessError err ->
  delete_candidate false n c s =
  (SysExit 1,
   log s [deleting_line c;
          Error_executing_command (candidate_command c); Error_output err]
         [candidate_command c]).
Proof.
  intros H.
  unfold delete_candidate, delete_version, bind, print, run_command, ret, log.
  change (delete_command (fst c) (snd c)) with (candidate_command c).
  cbn [printed calls stdin]. rewrite H.
  unfold bind, print, sys_exit. cbn [printed calls stdin].
  now rewrite <- !app_assoc.
Qed.

Lemma dry_run_loop cs n s :
  for_each cs (delete_candidate true) n s =
  (Return (n + length cs)%nat, log s (map would_delete_line cs) []).
Proof.
  revert n s. induction cs as [|c cs IH]; intros n s; simpl.
  - now rewrite Nat.add_0_r, log_nil.
  - unfold bind. rewrite delete_candidate_dry, IH, log_log. simpl.
    f_equal. f_equal. lia.
Qed.

Lemma live_loop_complete cs n s :
  deletes_complete (calls s) cs = true ->
  for_each cs (delete_candidate false) n s =
  (Return (n + length cs)%nat,
   log s (map deleting_line cs) (map candidate_command cs)).
Proof.
  revert n s. induction cs as [|c cs IH]; intros n s H; simpl in *.
  - now rewrite Nat.add_0_r, log_nil.
  - destruct (subprocess_run (calls s) (candidate_command c)) as [out|err] eqn:E;
      [|discriminate].
    unfold bind. rewrite (delete_candidate_completed n c out s E).
    rewrite IH by exact H.
    rewrite log_log. simpl. f_equal. f_equal. lia.
Qed.

Lemma live_loop_failure pre c post err n s :
  deletes_complete (calls s) pre = true ->
  subprocess_run (calls s ++ map candidate_command pre) (candidate_command c)
    = CalledProcessError err ->
  for_each (pre ++ c :: post) (delete_candidate false) n s =
  (SysExit 1,
   log s (map deleting_line (pre ++ [c]) ++
          [Error_executing_command (candidate_command c); Error_output err])
         (map candidate_command (pre ++ [c]))).
Proof.
  intros Hpre Hc. rewrite for_each_app. unfold bind at 1.
  rewrite (live_loop_complete pre n s Hpre). simpl.
  unfold bind. rewrite (delete_candidate_failed _ c err) by exact Hc.
  rewrite !log_log, !map_app. simpl. rewrite <- !app_assoc. reflexivity.
Qed.

(** Whatever the delete calls answer, the calls made are those of an initial
    part of the candidates, in order. *)
Lemma live_loop_calls cs n s :
  exists pre post,
    cs = pre ++ post /\
    calls (snd (for_each cs (delete_candidate false) n s)) =
      calls s ++ map candidate_command pre /\
    (deletes_complete (calls s) cs = true -> post = []).
Proof.
  revert n s. induction cs as [|c cs IH]; intros n s.
  - exists [], []. simpl. now rewrite app_nil_r.
  - simpl.
    destruct (subprocess_run (calls s) (candidate_command c)) as [out|err] eqn:E.
    + unfold bind. rewrite (delete_candidate_completed n c out s E).
      destruct (IH (S n) (log s [deleting_line c] [candidate_command c]))
        as (pre & post & -> & Hcalls & Hdone).
      exists (c :: pre), post. repeat split.
      * rewrite Hcalls. simpl. now rewrite <- app_assoc.
      * exact Hdone.
    + exists [c], cs. repeat split; [|discriminate].
      unfold bind. rewrite (delete_candidate_failed n c err s E).
      reflexivity.
Qed.

Lemma deletes_incomplete h cs :
  deletes_complete h cs = false ->
  exists pre c post err,
    cs = pre ++ c :: post /\
    deletes_complete h pre = true /\
    subprocess_run (h ++ map candidate_command pre) (candidate_command c)
      = CalledProcessError err.
Proof.
  revert h. induction cs as [|c cs IH]; intros h H; simpl in H; [discriminate|].
  destruct (subprocess_run h (candidate_command c)) as [out|err] eqn:E.
  - destruct (IH _ H) as (pre & c' & post & err & -> & Hpre & Hc).
    exists (c :: pre), c', post, err. simpl. rewrite E.
    rewrite <- app_assoc in Hc. auto.
  - exists [], c, cs, err. simpl. rewrite app_nil_r. auto.
Qed.

(** *** The report after the loops *)

Lemma delete_and_report_dry files s :
  delete_and_report true files s =
  (Return tt,
   log s (map would_delete_line (candidates files) ++
          [Total_would_be_deleted (length (candidates files))]) []).
Proof.
  unfold delete_and_report, bind.
  rewrite for_each_groups, dry_run_loop, print_log, log_log. reflexivity.
Qed.

Lemma delete_and_report_complete files s :
  deletes_complete (calls s) (candidates files) = true ->
  delete_and_report false files s =
  (Return tt,
   log s (map deleting_line (candidates files) ++
          [Total_deleted (length (candidates files))])
         (map candidate_command (candidates files))).
Proof.
  intros H. unfold delete_and_report, bind.
  rewrite for_each_groups, (live_loop_complete _ _ _ H), print_log, log_log.
  now rewrite app_nil_r.
Qed.

Lemma delete_and_report_failure files pre c post err s :
  candidates files = pre ++ c :: post ->
  deletes_complete (calls s) pre = true ->
  subprocess_run (calls s ++ map candidate_command pre) (candidate_command c)
    = CalledProcessError err ->
  delete_and_report false files s =
  (SysExit 1,
   log s (map deleting_line (pre ++ [c]) ++
          [Error_executing_command (candidate_command c); Error_output err])
         (map candidate_command (pre ++ [c]))).
Proof.
  intros Hcs Hpre Hc. unfold delete_and_report, bind.
  rewrite for_each_groups, Hcs.
  now rewrite (live_loop_failure pre c post err 0 s Hpre Hc).
Qed.

Lemma delete_and_report_calls files s :
  exists pre post,
    candidates files = pre ++ post /\
    calls (snd (delete_and_report false files s)) =
      calls s ++ map candidate_command pre /\
    (deletes_complete (calls s) (candidates files) = true -> post = []).
Proof.
  destruct (live_loop_calls (candidates files) 0 s)
    as (pre & post & Hcs & Hcalls & Hdone).
  exists pre, post. repeat split; auto.
  unfold delete_and_report, bind. rewrite for_each_groups.
  destruct (for_each (candidates files) (delete_candidate false) 0 s)
    as [[a|c|e] s'] eqn:E; simpl in *; auto.
Qed.

(** *** The listing *)

Lemma get_file_versions_lines bucket out vs s :
  subprocess_run (calls s) (list_command bucket) = Completed out ->
  loads_lines (splitlines out) = inl vs ->
  get_file_versions bucket s =
  (Return (PyList vs), log s [] [list_command bucket]).
Proof.
  intros Hrun Hlines. unfold get_file_versions, bind.
  rewrite (run_command_completed _ out) by exact Hrun.
  now rewrite Hlines.
Qed.

Lemma get_file_versions_fallback bucket out e v s :
  subprocess_run (calls s) (list_command bucket) = Completed out ->
  loads_lines (splitlines out) = inr e ->
  json_loads out = Loaded v ->
  get_file_versions bucket s =
  (Return v,
   log s [Error_decoding_JSON e; Attempting_single_object]
         [list_command bucket]).
Proof.
  intros Hrun Hlines Hwhole. unfold get_file_versions, bind.
  rewrite (run_command_completed _ out) by exact Hrun.
  rewrite Hlines, !print_log, Hwhole. unfold ret. now rewrite !log_log.
Qed.

Lemma group_versions_records l files s :
  group_versions (map PyDict l) files s =
  (Return (fold_left append_version l files), s).
Proof.
  revert files. induction l as [|r l IH]; intros files; simpl; auto.
Qed.

Lemma prune_records bucket dry_run r l s :
  prune bucket dry_run (PyList (map PyDict (r :: l))) s =
  delete_and_report dry_run (group_records (r :: l)) s.
Proof.
  unfold prune.
  change (negb (truthy (PyList (map PyDict (r :: l))))) with false.
  cbv iota. unfold bind. rewrite group_versions_records. reflexivity.
Qed.

Lemma candidates_single n r : candidates [(n, [r])] = [].
Proof. reflexivity. Qed.

(** *** The entry point *)

Lemma lower_y answer : lower answer = "y" <-> answer = "y" \/ answer = "Y".
Proof.
  split.
  - destruct answer as [|c [|c' rest]]; simpl; try discriminate.
    intros H. inversion H as [Hc]. clear H.
    unfold lower_ascii in Hc.
    destruct c as [[] [] [] [] [] [] [] []]; simpl in Hc;
      try discriminate; auto.
  - intros [-> | ->]; reflexivity.
Qed.

Lemma main_usage argv s :
  (length argv < 2 \/ 3 < length argv)%nat ->
  main argv s = (SysExit 1, log s [Usage] []).
Proof.
  intros H. unfold main.
  assert ((length argv <? 2)%nat || (3 <? length argv)%nat = true) as ->.
  { apply orb_true_iff. rewrite !Nat.ltb_lt. exact H. }
  unfold bind. now rewrite print_log.
Qed.

Lemma main_proceeds argv s s' :
  (2 <= length argv <= 3)%nat ->
  start_state argv s = Some s' ->
  main argv s =
  delete_old_versions (nth 1 argv "") (existsb (String.eqb "--dry-run") argv) s'.
Proof.
  intros Hlen Hstart. unfold main.
  assert ((length argv <? 2)%nat || (3 <? length argv)%nat = false) as ->.
  { apply orb_false_iff. rewrite !Nat.ltb_ge. lia. }
  unfold start_state in Hstart. unfold bind at 1, confirm.
  destruct (existsb (String.eqb "--dry-run") argv).
  - inversion Hstart; subst. reflexivity.
  - unfold bind, print, input. cbn [stdin printed calls].
    destruct (stdin s) as [|answer rest]; [discriminate|].
    destruct (lower answer =? "y"); [|discriminate].
    inversion Hstart; subst. reflexivity.
Qed.

Lemma main_cancelled argv answer rest s :
  (2 <= length argv <= 3)%nat ->
  existsb (String.eqb "--dry-run") argv = false ->
  stdin s = answer :: rest ->
  lower answer <> "y" ->
  main argv s =
  (SysExit 0,
   mkState (printed s ++ [Warning_are_you_sure; Operation_cancelled])
           (calls s) rest).
Proof.
  intros Hlen Hdry Hin Hno. unfold main.
  assert ((length argv <? 2)%nat || (3 <? length argv)%nat = false) as ->.
  { apply orb_false_iff. rewrite !Nat.ltb_ge. lia. }
  rewrite Hdry. unfold confirm, bind, print, input, sys_exit.
  cbn [stdin printed calls].
  rewrite Hin. apply String.eqb_neq in Hno. rewrite Hno.
  cbn [negb printed calls stdin]. now rewrite <- app_assoc.
Qed.

End Loops.

(** * The claims *)

Lemma retained_per_name l :
  Forall2 (fun n r => first_greatest (versions_of n l) = Some r)
          (distinct_names l) (retained (group_records l)).
Proof.
  rewrite retained_spec.
  assert (H : forall n, In n (distinct_names l) -> In n (map fileName l))
    by (intros n; apply distinct_names_In).
  induction (distinct_names l) as [|n ns IH]; simpl; [constructor|].
  destruct (first_greatest (versions_of n l)) as [r|] eqn:E.
  - simpl. constructor; [exact E|]. apply IH. intros; apply H; now right.
  - exfalso. rewrite <- newest_first_greatest in E.
    destruct (newest_nonempty (versions_of n l)) as [r Hr]; [|congruence].
    apply versions_of_present, H. now left.
Qed.

(** C1: grouping a list of version records by exact [fileName] and taking
    all but the newest of every group gives [|records| - |distinct names|]
    deletion candidates and retains exactly one record per distinct name: the
    one with the greatest [uploadTimestamp], the first in input order among
    equals.  The groups are those the loop of lines 66-67 builds, and the
    dry run prints one line per candidate and that count. *)
Theorem keep_newest_per_name (l : list VersionRecord) :
  let files := group_records l in
  let distinct := nodup string_dec (map fileName l) in
  (forall (rt : Runtime) s,
     group_versions (map PyDict l) [] s = (Return files, s)) /\
  (forall (rt : Runtime) s,
     delete_and_report true files s =
     (Return tt,
      log s (map would_delete_line (candidates files) ++
             [Total_would_be_deleted (length l - length distinct)]) [])) /\
  length (candidates files) = (length l - length distinct)%nat /\
  length (retained files) = length distinct /\
  Permutation (retained files ++ map snd (candidates files)) l /\
  Permutation (distinct_names l) distinct /\
  Forall2 (fun n r =>
             exists pre post,
               versions_of n l = pre ++ r :: post /\
               Forall (fun y => (uploadTimestamp y < uploadTimestamp r)%Z) pre /\
               Forall (fun y => (uploadTimestamp y <= uploadTimestamp r)%Z) post)
          (distinct_names l) (retained files).
Proof.
  cbv zeta. repeat split.
  - intros rt s. apply group_versions_records.
  - intros rt s. rewrite delete_and_report_dry. now rewrite candidates_count.
  - apply candidates_count.
  - rewrite retained_length by apply group_records_nonempty.
    now rewrite <- distinct_names_count, <- group_records_keys, length_map.
  - rewrite retained_candidates_perm. apply group_records_partition.
  - apply NoDup_Permutation.
    + apply distinct_names_NoDup.
    + apply NoDup_nodup.
    + intros n. now rewrite distinct_names_In, nodup_In.
  - eapply Forall2_impl; [|apply retained_per_name].
    intros n r H. now apply first_greatest_split.
Qed.

(** C6: the descending sort of a group is stable: the records with one and
    the same [uploadTimestamp] come out in their input order, and of two
    records with equal timestamps the one that is first in the input is
    first in the result.  The result is a permutation of the group, newest
    first. *)
Theorem sort_is_stable (versions : list VersionRecord) :
  (forall t,
     filter (same_time t) (sorted_desc versions) =
     filter (same_time t) versions) /\
  (forall l1 a l2 b l3,
     versions = l1 ++ a :: l2 ++ b :: l3 ->
     uploadTimestamp a = uploadTimestamp b ->
     exists m1 m2 m3, sorted_desc versions = m1 ++ a :: m2 ++ b :: m3) /\
  Permutation (sorted_desc versions) versions /\
  StronglySorted not_older (sorted_desc versions).
Proof.
  repeat split.
  - intros t. apply sorted_desc_stable.
  - intros l1 a l2 b l3. apply sorted_desc_keeps_order.
  - apply sorted_desc_perm.
  - apply sorted_desc_sorted.
Qed.

Lemma sort_is_stable_witness :
  exists m1 m2 m3,
    sorted_desc [Demo.a100; Demo.b100; Demo.a300; Demo.b100'] =
    m1 ++ Demo.b100 :: m2 ++ Demo.b100' :: m3.
Proof.
  apply (proj1 (proj2 (sort_is_stable
                         [Demo.a100; Demo.b100; Demo.a300; Demo.b100']))
           [Demo.a100] Demo.b100 [Demo.a300] Demo.b100' []);
    reflexivity.
Defined.

Section Runs.
Context {rt : Runtime}.

Lemma delete_old_versions_listed bucket dry_run v s s1 :
  get_file_versions bucket s = (Return v, s1) ->
  delete_old_versions bucket dry_run s = prune bucket dry_run v s1.
Proof. intros H. unfold delete_old_versions, bind. now rewrite H. Qed.

(** C2 (scenario A): one file with three versions uploaded at 100, 300 and
    200.  The version of 300 is retained, the versions of 200 and 100 are the
    candidates, and the reported count is 2, in a dry run and in a live run
    whose delete calls complete. *)
Theorem scenario_A (name id1 id2 id3 bucket : string) (s : state) :
  let v100 := mkVersion name id1 100 in
  let v300 := mkVersion name id2 300 in
  let v200 := mkVersion name id3 200 in
  let l := [v100; v300; v200] in
  group_records l = [(name, l)] /\
  retained (group_records l) = [v300] /\
  candidates (group_records l) = [(name, v200); (name, v100)] /\
  prune bucket true (PyList (map PyDict l)) s =
    (Return tt,
     log s [Would_delete name id3; Would_delete name id1;
            Total_would_be_deleted 2] []) /\
  (deletes_complete (calls s) [(name, v200); (name, v100)] = true ->
   prune bucket false (PyList (map PyDict l)) s =
     (Return tt,
      log s [Deleting name id3; Deleting name id1; Total_deleted 2]
            [["b2"; "delete-file-version"; name; id3];
             ["b2"; "delete-file-version"; name; id1]])).
Proof.
  cbv zeta.
  assert (Hg : group_records [mkVersion name id1 100; mkVersion name id2 300;
                              mkVersion name id3 200] =
               [(name, [mkVersion name id1 100; mkVersion name id2 300;
                        mkVersion name id3 200])]).
  { unfold group_records. repeat (simpl; rewrite String.eqb_refl).
    reflexivity. }
  repeat split.
  - exact Hg.
  - now rewrite Hg.
  - now rewrite Hg.
  - rewrite prune_records, delete_and_report_dry, Hg. reflexivity.
  - intros Hok. rewrite prune_records, delete_and_report_complete; rewrite Hg.
    + reflexivity.
    + exact Hok.
Qed.

(** C3, as the script has it: in a dry run no command is run, one line is
    printed per candidate and the count is the number of candidates.  In a
    live run the delete commands run are those of an initial part of the
    candidates, in their order, one per candidate.  When every call completes
    they are those of all the candidates and the count is their number.  When
    a call exits nonzero (the calls before it having completed) the commands
    run are those of the candidates up to that one and of no candidate after
    it, and the script exits with status 1.  One of the two is the case. *)
Theorem deletes_follow_candidates (files : groups) (s : state) :
  (delete_and_report true files s =
     (Return tt,
      log s (map would_delete_line (candidates files) ++
             [Total_would_be_deleted (length (candidates files))]) []) /\
   calls (snd (delete_and_report true files s)) = calls s) /\
  (exists pre post,
     candidates files = pre ++ post /\
     calls (snd (delete_and_report false files s)) =
       calls s ++ map candidate_command pre) /\
  (deletes_complete (calls s) (candidates files) = true ->
   delete_and_report false files s =
     (Return tt,
      log s (map deleting_line (candidates files) ++
             [Total_deleted (length (candidates files))])
            (map candidate_command (candidates files)))) /\
  (forall pre c post err,
     candidates files = pre ++ c :: post ->
     deletes_complete (calls s) pre = true ->
     subprocess_run (calls s ++ map candidate_command pre) (candidate_command c)
       = CalledProcessError err ->
     delete_and_report false files s =
       (SysExit 1,
        log s (map deleting_line (pre ++ [c]) ++
               [Error_executing_command (candidate_command c);
                Error_output err])
              (map candidate_command (pre ++ [c])))) /\
  (deletes_complete (calls s) (candidates files) = true \/
   exists pre c post err,
     candidates files = pre ++ c :: post /\
     deletes_complete (calls s) pre = true /\
     subprocess_run (calls s ++ map candidate_command pre) (candidate_command c)
       = CalledProcessError err).
Proof.
  split; [split|].
  - apply delete_and_report_dry.
  - rewrite delete_and_report_dry. simpl. apply app_nil_r.
  - split; [|split; [|split]].
    + destruct (delete_and_report_calls files s) as (pre & post & H1 & H2 & _).
      exists pre, post. auto.
    + apply delete_and_report_complete.
    + intros pre c post err. apply delete_and_report_failure.
    + destruct (deletes_complete (calls s) (candidates files)) eqn:E;
        [now left | right].
      apply deletes_incomplete. exact E.
Qed.

(** C4: in a live run, when the delete call of a candidate exits nonzero
    (the calls of the candidates before it having completed), the script
    prints the command and the captured error output and exits with status 1;
    the delete commands run are those of the candidates up to the failing one,
    none is run for a later candidate and no total is printed. *)
Theorem failed_delete_stops_run (argv : list string) (s0 s' s1 : state)
    (l : list VersionRecord) (pre post : list (string * VersionRecord))
    (c : string * VersionRecord) (err : string) :
  (2 <= length argv <= 3)%nat ->
  existsb (String.eqb "--dry-run") argv = false ->
  start_state argv s0 = Some s' ->
  get_file_versions (nth 1 argv "") s' = (Return (PyList (map PyDict l)), s1) ->
  candidates (group_records l) = pre ++ c :: post ->
  deletes_complete (calls s1) pre = true ->
  subprocess_run (calls s1 ++ map candidate_command pre) (candidate_command c)
    = CalledProcessError err ->
  main argv s0 =
    (SysExit 1,
     log s1 (map deleting_line (pre ++ [c]) ++
             [Error_executing_command (candidate_command c); Error_output err])
            (map candidate_command (pre ++ [c]))) /\
  exit_code (fst (main argv s0)) = 1%Z /\
  calls (snd (main argv s0)) =
    calls s1 ++ map candidate_command pre ++ [candidate_command c].
Proof.
  intros Hlen Hlive Hstart Hlist Hcs Hpre Hfail.
  assert (Hmain : main argv s0 =
    (SysExit 1,
     log s1 (map deleting_line (pre ++ [c]) ++
             [Error_executing_command (candidate_command c); Error_output err])
            (map candidate_command (pre ++ [c])))).
  { rewrite (main_proceeds argv s0 s' Hlen Hstart), Hlive.
    rewrite (delete_old_versions_listed _ _ _ _ _ Hlist).
    destruct l as [|r l]; [destruct pre; discriminate|].
    rewrite prune_records.
    exact (delete_and_report_failure _ pre c post err s1 Hcs Hpre Hfail). }
  rewrite Hmain. repeat split. simpl. now rewrite map_app.
Qed.

Lemma get_file_versions_calls bucket s :
  calls (snd (get_file_versions bucket s)) = calls s ++ [list_command bucket].
Proof.
  unfold get_file_versions, bind, run_command.
  destruct (subprocess_run (calls s) (list_command bucket)); [|reflexivity].
  destruct (loads_lines (splitlines out)); [reflexivity|].
  unfold print, sys_exit, ret. simpl.
  destruct (json_loads out); reflexivity.
Qed.

Lemma prune_single bucket dry_run r s :
  prune bucket dry_run (PyDict r) s =
  (Return tt,
   log s [if dry_run then Total_would_be_deleted 0 else Total_deleted 0] []).
Proof.
  unfold prune. cbn [truthy negb]. destruct dry_run.
  - now rewrite delete_and_report_dry.
  - now rewrite delete_and_report_complete.
Qed.

(** C5, as the script has it: when the lines do not parse and the whole
    output parses as one object, [get_file_versions] returns that object as
    it is, not a list.  It is [delete_old_versions] that makes a group of the
    single record: it treats the object as it treats the list holding it, so
    nothing is deleted and the total is 0. *)
Theorem bare_object_grouped_by_caller (bucket out e : string)
    (r : VersionRecord) (dry_run : bool) (s : state) :
  subprocess_run (calls s) (list_command bucket) = Completed out ->
  loads_lines (splitlines out) = inr e ->
  json_loads out = Loaded (PyDict r) ->
  let s1 := log s [Error_decoding_JSON e; Attempting_single_object]
                  [list_command bucket] in
  get_file_versions bucket s = (Return (PyDict r), s1) /\
  (forall s2, prune bucket dry_run (PyDict r) s2 =
              prune bucket dry_run (PyList [PyDict r]) s2) /\
  delete_old_versions bucket dry_run s =
    (Return tt,
     log s1 [if dry_run then Total_would_be_deleted 0 else Total_deleted 0] []).
Proof.
  intros Hrun Hlines Hwhole s1.
  pose proof (get_file_versions_fallback bucket out e _ s Hrun Hlines Hwhole)
    as Hget.
  split; [exact Hget|]. split.
  - intros s2. reflexivity.
  - rewrite (delete_old_versions_listed _ _ _ _ _ Hget). apply prune_single.
Qed.

(** C7, as the script has it: in a live run the answer is lower-cased before
    it is compared with [y].  On every answer other than [y] and [Y] the
    script prints the cancellation and exits with status 0 without running a
    command; on [y] and on [Y] it goes on to [delete_old_versions]. *)
Theorem confirmation_gate (argv : list string) (answer : string)
    (rest : list string) (s : state) :
  (2 <= length argv <= 3)%nat ->
  existsb (String.eqb "--dry-run") argv = false ->
  stdin s = answer :: rest ->
  (answer <> "y" -> answer <> "Y" ->
   main argv s =
     (SysExit 0,
      mkState (printed s ++ [Warning_are_you_sure; Operation_cancelled])
              (calls s) rest)) /\
  (answer = "y" \/ answer = "Y" ->
   main argv s =
     delete_old_versions (nth 1 argv "") false
       (mkState (printed s ++ [Warning_are_you_sure]) (calls s) rest)).
Proof.
  intros Hlen Hlive Hin. split.
  - intros Hy HY. apply (main_cancelled argv answer rest s Hlen Hlive Hin).
    rewrite lower_y. tauto.
  - intros Hyes. apply lower_y in Hyes.
    rewrite (main_proceeds argv s
               (mkState (printed s ++ [Warning_are_you_sure]) (calls s) rest)
               Hlen).
    + now rewrite Hlive.
    + unfold start_state. rewrite Hlive, Hin, Hyes. reflexivity.
Qed.

(** C8: when the listing is empty the script prints that no files were
    found and returns; the exit status is 0, the one command run after the
    start is the listing, and no candidate line and no total is printed. *)
Theorem empty_listing (argv : list string) (s0 s' s1 : state) :
  (2 <= length argv <= 3)%nat ->
  start_state argv s0 = Some s' ->
  get_file_versions (nth 1 argv "") s' = (Return (PyList []), s1) ->
  main argv s0 = (Return tt, log s1 [No_files_found (nth 1 argv "")] []) /\
  exit_code (fst (main argv s0)) = 0%Z /\
  calls (snd (main argv s0)) = calls s' ++ [list_command (nth 1 argv "")].
Proof.
  intros Hlen Hstart Hlist.
  assert (Hmain : main argv s0 =
                  (Return tt, log s1 [No_files_found (nth 1 argv "")] [])).
  { rewrite (main_proceeds argv s0 s' Hlen Hstart).
    rewrite (delete_old_versions_listed _ _ _ _ _ Hlist).
    unfold prune. cbn [truthy negb]. apply print_log. }
  rewrite Hmain. repeat split. simpl. rewrite app_nil_r.
  pose proof (get_file_versions_calls (nth 1 argv "") s') as H.
  now rewrite Hlist in H.
Qed.

(** C9, as the script has it: the validation looks at the number of
    arguments only.  With fewer
    than 2 or more than 3 entries in [sys.argv] the script prints the usage
    and exits with status 1; with 2 or 3 it goes on, the bucket being the
    first argument and the dry run being asked for by ["--dry-run"] anywhere
    in [sys.argv].  A sole argument ["--dry-run"] is the bucket name and
    turns the dry run on; a second argument other than ["--dry-run"] changes
    nothing, and the run is live when neither the script name nor the first
    argument is ["--dry-run"]. *)
Theorem arguments_checked_by_count (prog bucket extra : string) (s : state) :
  (forall argv, (length argv < 2 \/ 3 < length argv)%nat ->
     main argv s = (SysExit 1, log s [Usage] [])) /\
  (forall argv, (2 <= length argv <= 3)%nat ->
     main argv s =
     (confirm (existsb (String.eqb "--dry-run") argv) ;;
      delete_old_versions (nth 1 argv "")
        (existsb (String.eqb "--dry-run") argv)) s) /\
  main [prog; "--dry-run"] s =
    delete_old_versions "--dry-run" true (log s [Dry_run_notice] []) /\
  (extra <> "--dry-run" ->
   main [prog; bucket; extra] s = main [prog; bucket] s) /\
  (extra <> "--dry-run" -> prog <> "--dry-run" -> bucket <> "--dry-run" ->
   main [prog; bucket; extra] s =
     (confirm false ;; delete_old_versions bucket false) s).
Proof.
  assert (Hno : forall a, a <> "--dry-run" -> ("--dry-run" =? a) = false).
  { intros a Ha. apply String.eqb_neq. congruence. }
  repeat split.
  - intros argv. apply main_usage.
  - intros argv Hlen. unfold main.
    assert ((length argv <? 2)%nat || (3 <? length argv)%nat = false) as ->.
    { apply orb_false_iff. rewrite !Nat.ltb_ge. lia. }
    reflexivity.
  - unfold main. cbn [length Nat.ltb Nat.leb orb nth existsb].
    rewrite String.eqb_refl, orb_true_r. unfold confirm, bind.
    now rewrite print_log.
  - intros He. unfold main. cbn [length Nat.ltb Nat.leb orb nth existsb].
    now rewrite (Hno extra He), !orb_false_r.
  - intros He Hp Hb. unfold main. cbn [length Nat.ltb Nat.leb orb nth existsb].
    now rewrite (Hno extra He), (Hno prog Hp), (Hno bucket Hb).
Qed.

(** Whatever its truth value, a value that is neither a list nor a dict
    ends the run normally, after the fallback lines and one more line. *)
Lemma scalar_listing_exit_status (argv : list string) (s0 s' : state)
    (out e : string) (v : pyvalue) :
  (2 <= length argv <= 3)%nat ->
  start_state argv s0 = Some s' ->
  subprocess_run (calls s') (list_command (nth 1 argv "")) = Completed out ->
  loads_lines (splitlines out) = inr e ->
  json_loads out = Loaded v ->
  type_of v <> type_list ->
  type_of v <> type_dict ->
  main argv s0 =
    (Return tt,
     log s' [Error_decoding_JSON e; Attempting_single_object;
             if truthy v then Unexpected_data_type (type_of v)
             else No_files_found (nth 1 argv "")]
            [list_command (nth 1 argv "")]).
Proof.
  intros Hlen Hstart Hrun Hlines Hwhole Hl Hd.
  rewrite (main_proceeds argv s0 s' Hlen Hstart).
  rewrite (delete_old_versions_listed _ _ _ _ _
             (get_file_versions_fallback _ out e v s' Hrun Hlines Hwhole)).
  unfold prune.
  destruct (truthy v) eqn:Ht; cbn [negb].
  - destruct v; try (now rewrite print_log, log_log); simpl in *; congruence.
  - now rewrite print_log, log_log.
Qed.

(** C10: when the lines do not parse and the whole output parses as a value
    that is neither a list nor a dict, the script runs no delete, prints no
    total and returns, so the exit status is 0; after the two lines of the
    fallback it prints the unexpected-type diagnostic.  (The test of line 59
    comes first: a value with a false truth value would be reported as an
    empty listing.  [json.loads] never yields one here: a scalar that does not
    fit on a line is a string holding a line boundary, so it is not empty.) *)
Theorem scalar_listing_returns_normally (argv : list string) (s0 s' : state)
    (out e : string) (v : pyvalue) :
  (2 <= length argv <= 3)%nat ->
  start_state argv s0 = Some s' ->
  subprocess_run (calls s') (list_command (nth 1 argv "")) = Completed out ->
  loads_lines (splitlines out) = inr e ->
  json_loads out = Loaded v ->
  type_of v <> type_list ->
  type_of v <> type_dict ->
  truthy v = true ->
  main argv s0 =
    (Return tt,
     log s' [Error_decoding_JSON e; Attempting_single_object;
             Unexpected_data_type (type_of v)]
            [list_command (nth 1 argv "")]) /\
  exit_code (fst (main argv s0)) = 0%Z.
Proof.
  intros Hlen Hstart Hrun Hlines Hwhole Hl Hd Ht.
  assert (Hmain : main argv s0 =
    (Return tt,
     log s' [Error_decoding_JSON e; Attempting_single_object;
             Unexpected_data_type (type_of v)]
            [list_command (nth 1 argv "")])).
  { rewrite (main_proceeds argv s0 s' Hlen Hstart).
    rewrite (delete_old_versions_listed _ _ _ _ _
               (get_file_versions_fallback _ out e v s' Hrun Hlines Hwhole)).
    unfold prune. rewrite Ht. cbn [negb].
    destruct v; try (now rewrite print_log, log_log); simpl in *; congruence. }
  now rewrite Hmain.
Qed.

End Runs.

(** * The claims on concrete runs *)

Lemma scenario_A_witness :
  @prune (Demo.scripted Demo.listing_A Demo.never) "bucket" false
         (PyList (map PyDict Runs.records_A))
         (log (initial []) [] [@list_command "bucket"]) =
  (Return tt,
   log (log (initial []) [] [@list_command "bucket"])
       [Deleting "a.txt" "id-a200"; Deleting "a.txt" "id-a100"; Total_deleted 2]
       [["b2"; "delete-file-version"; "a.txt"; "id-a200"];
        ["b2"; "delete-file-version"; "a.txt"; "id-a100"]]).
Proof.
  apply (proj2 (proj2 (proj2 (proj2
           (@scenario_A (Demo.scripted Demo.listing_A Demo.never)
              "a.txt" "id-a100" "id-a300" "id-a200" "bucket"
              (log (initial []) [] [@list_command "bucket"])))))).
  vm_compute. reflexivity.
Defined.

(** C3, as stated, fails: a live run on three versions of one file in which
    the first delete call exits nonzero.  The script was to delete two
    versions; it runs the delete command of the first and never that of the
    second. *)
Lemma live_run_skips_a_candidate :
  let run := @main Runs.first_delete_fails Runs.bucket_argv (initial ["y"]) in
  candidates (group_records Runs.records_A) =
    [("a.txt", Demo.a200); ("a.txt", Demo.a100)] /\
  calls (snd run) =
    [@list_command "bucket"; candidate_command ("a.txt", Demo.a200)] /\
  ~ In (candidate_command ("a.txt", Demo.a100)) (calls (snd run)).
Proof.
  vm_compute. repeat split.
  intros [H | [H | []]]; discriminate.
Qed.

Lemma deletes_follow_candidates_witness :
  @delete_and_report (Demo.scripted Demo.listing_A Demo.never) false
     (group_records Runs.records_A) (initial []) =
  (Return tt,
   log (initial [])
       [Deleting "a.txt" "id-a200"; Deleting "a.txt" "id-a100"; Total_deleted 2]
       [["b2"; "delete-file-version"; "a.txt"; "id-a200"];
        ["b2"; "delete-file-version"; "a.txt"; "id-a100"]]) /\
  @delete_and_report Runs.first_delete_fails false
     (group_records Runs.records_A)
     (log (initial []) [] [list_command "bucket"]) =
  (SysExit 1,
   log (log (initial []) [] [list_command "bucket"])
       [Deleting "a.txt" "id-a200";
        Error_executing_command
          ["b2"; "delete-file-version"; "a.txt"; "id-a200"];
        Error_output "simulated failure"]
       [["b2"; "delete-file-version"; "a.txt"; "id-a200"]]).
Proof.
  split.
  - apply (proj1 (proj2 (proj2 (@deletes_follow_candidates
                           (Demo.scripted Demo.listing_A Demo.never)
                           (group_records Runs.records_A) (initial []))))).
    vm_compute. reflexivity.
  - refine (proj1 (proj2 (proj2 (proj2 (@deletes_follow_candidates
              Runs.first_delete_fails (group_records Runs.records_A)
              (log (initial []) [] [list_command "bucket"])))))
              [] ("a.txt", Demo.a200) [("a.txt", Demo.a100)]
              "simulated failure" _ _ _).
    + vm_compute. reflexivity.
    + reflexivity.
    + vm_compute. reflexivity.
Defined.

(** Scenario F: five candidates of one file, the delete of the third fails. *)
Lemma failed_delete_stops_run_witness :
  let run := @main Runs.third_delete_fails Runs.bucket_argv (initial ["y"]) in
  exit_code (fst run) = 1%Z /\
  calls (snd run) =
    [@list_command "bucket";
     candidate_command ("a.txt", Demo.a250);
     candidate_command ("a.txt", Demo.a200);
     candidate_command ("a.txt", Demo.a150)].
Proof.
  cbv zeta.
  refine (proj2 (@failed_delete_stops_run Runs.third_delete_fails
            Runs.bucket_argv (initial ["y"]) (Runs.warned [])
            (log (Runs.warned []) [] [@list_command "bucket"])
            Runs.records_F
            [("a.txt", Demo.a250); ("a.txt", Demo.a200)]
            [("a.txt", Demo.a100); ("a.txt", Demo.a050);
             ("b.txt", Demo.b100')]
            ("a.txt", Demo.a150) "simulated failure" _ _ _ _ _ _ _)).
  - simpl. lia.
  - reflexivity.
  - reflexivity.
  - vm_compute. reflexivity.
  - vm_compute. reflexivity.
  - vm_compute. reflexivity.
  - vm_compute. reflexivity.
Defined.

(** C5, as stated, fails: the listing is one object printed over several
    lines.  The lines do not parse, the whole output parses as the object, and
    [get_file_versions] returns the object itself, not the list holding it. *)
Lemma lister_returns_bare_object :
  let out := Demo.pretty_text "a.txt" "id-a100" "100" in
  @loads_lines Runs.pretty_listing (Demo.demo_splitlines out)
    = inr "not a JSON document" /\
  Demo.demo_loads out = Loaded (PyDict Demo.a100) /\
  fst (@get_file_versions Runs.pretty_listing "bucket" (initial []))
    = Return (PyDict Demo.a100) /\
  fst (@get_file_versions Runs.pretty_listing "bucket" (initial []))
    <> Return (PyList [PyDict Demo.a100]).
Proof.
  vm_compute. repeat split. discriminate.
Qed.

Lemma bare_object_grouped_by_caller_witness :
  @get_file_versions Runs.pretty_listing "bucket" (initial []) =
    (Return (PyDict Demo.a100),
     log (initial [])
         [Error_decoding_JSON "not a JSON document"; Attempting_single_object]
         [list_command "bucket"]) /\
  @delete_old_versions Runs.pretty_listing "bucket" false (initial []) =
    (Return tt,
     log (log (initial [])
              [Error_decoding_JSON "not a JSON document"; Attempting_single_object]
              [list_command "bucket"])
         [Total_deleted 0] []).
Proof.
  pose proof (@bare_object_grouped_by_caller Runs.pretty_listing "bucket"
                (Demo.pretty_text "a.txt" "id-a100" "100") "not a JSON document"
                Demo.a100 false (initial [])) as H.
  cbv zeta in H.
  destruct H as (H1 & _ & H3);
    [vm_compute; reflexivity | vm_compute; reflexivity
     | vm_compute; reflexivity |].
  split; [exact H1 | exact H3].
Defined.

(** C7, as stated, fails: the answer [Y] is not [y], and the live run goes
    on: it runs the listing command and ends without the cancellation. *)
Lemma upper_case_answer_proceeds :
  let run := @main (Demo.scripted "" Demo.never) Runs.bucket_argv
                   (initial ["Y"]) in
  "Y" <> "y" /\
  calls (snd run) = [list_command "bucket"] /\
  run = (Return tt,
         mkState [Warning_are_you_sure; No_files_found "bucket"]
                 [list_command "bucket"] []).
Proof.
  vm_compute. repeat split. discriminate.
Qed.

Lemma confirmation_gate_witness :
  @main (Demo.scripted Demo.listing_A Demo.never) Runs.bucket_argv
        (initial ["n"]) =
  (SysExit 0, mkState [Warning_are_you_sure; Operation_cancelled] [] []).
Proof.
  refine (proj1 (@confirmation_gate (Demo.scripted Demo.listing_A Demo.never)
                   Runs.bucket_argv "n" [] (initial ["n"]) _ _ _) _ _).
  - simpl. lia.
  - reflexivity.
  - reflexivity.
  - discriminate.
  - discriminate.
Defined.

Lemma empty_listing_witness :
  @main (Demo.scripted "" Demo.never) ["delete.py"; "bucket"; "--dry-run"]
        (initial []) =
  (Return tt,
   log (log (mkState [Dry_run_notice] [] []) [] [list_command "bucket"])
       [No_files_found "bucket"] []).
Proof.
  refine (proj1 (@empty_listing (Demo.scripted "" Demo.never)
                   ["delete.py"; "bucket"; "--dry-run"] (initial [])
                   (mkState [Dry_run_notice] [] [])
                   (log (mkState [Dry_run_notice] [] []) []
                        [list_command "bucket"]) _ _ _)).
  - simpl. lia.
  - reflexivity.
  - vm_compute. reflexivity.
Defined.

(** C9, as stated, fails: with the flag as first argument, a second
    argument other than the flag does not make the run a live one.  The
    script prints the dry-run notice, reads no answer and runs no delete; a
    live run against the first argument would ask and delete. *)
Lemma flag_as_first_argument_is_dry_run :
  let rt := Demo.scripted Demo.listing_A Demo.never in
  let run := @main rt ["delete.py"; "--dry-run"; "x"] (initial ["y"]) in
  "x" <> "--dry-run" /\
  run =
    (Return tt,
     mkState [Dry_run_notice;
              Would_delete "a.txt" "id-a200"; Would_delete "a.txt" "id-a100";
              Total_would_be_deleted 2]
             [list_command "--dry-run"] ["y"]) /\
  run <>
    (@confirm false ;; @delete_old_versions rt "--dry-run" false)
      (initial ["y"]).
Proof.
  vm_compute. repeat split; discriminate.
Qed.

Lemma arguments_checked_by_count_witness :
  @main (Demo.scripted Demo.listing_A Demo.never)
        ["delete.py"; "bucket"; "--dryrun"] (initial ["n"]) =
  @main (Demo.scripted Demo.listing_A Demo.never)
        ["delete.py"; "bucket"] (initial ["n"]).
Proof.
  refine (proj1 (proj2 (proj2 (proj2
            (@arguments_checked_by_count
               (Demo.scripted Demo.listing_A Demo.never)
               "delete.py" "bucket" "--dryrun" (initial ["n"]))))) _).
  discriminate.
Defined.

Lemma scalar_listing_returns_normally_witness :
  let run := @main Runs.string_listing Runs.bucket_argv (initial ["y"]) in
  run =
    (Return tt,
     log (Runs.warned [])
         [Error_decoding_JSON "not a JSON document"; Attempting_single_object;
          Unexpected_data_type type_str]
         [list_command "bucket"]) /\
  exit_code (fst run) = 0%Z.
Proof.
  cbv zeta.
  refine (@scalar_listing_returns_normally Runs.string_listing
            Runs.bucket_argv (initial ["y"]) (Runs.warned [])
            (Demo.quoted ("x" ++ Demo.NEL ++ "y")) "not a JSON document"
            (PyStr ("x" ++ Demo.NEL ++ "y")) _ _ _ _ _ _ _ _).
  - simpl. lia.
  - reflexivity.
  - vm_compute. reflexivity.
  - vm_compute. reflexivity.
  - vm_compute. reflexivity.
  - discriminate.
  - discriminate.
  - reflexivity.
Defined.

(** * Further runs *)

(** Eight versions of two files: six candidates, eight records less two
    names; of the two versions of [b.txt] uploaded at 100 the first listed is
    kept. *)
Example dry_run_F :
  @main (Demo.scripted Demo.listing_F Demo.never)
        ["delete.py"; "bucket"; "--dry-run"] (initial []) =
  (Return tt,
   mkState [Dry_run_notice;
            Would_delete "a.txt" "id-a250"; Would_delete "a.txt" "id-a200";
            Would_delete "a.txt" "id-a150"; Would_delete "a.txt" "id-a100";
            Would_delete "a.txt" "id-a050";
            Would_delete "b.txt" "id-b100-again";
            Total_would_be_deleted 6]
           [list_command "bucket"] []).
Proof. vm_compute. reflexivity. Qed.

(** Scenario B: two files with one version each; nothing to delete. *)
Example live_run_B :
  @main (Demo.scripted
           (Demo.lines_of [Demo.object_text "a.txt" "id-a100" "100";
                           Demo.object_text "b.txt" "id-b100" "100"])
           Demo.never)
        Runs.bucket_argv (initial ["y"]) =
  (Return tt,
   mkState [Warning_are_you_sure; Total_deleted 0] [list_command "bucket"] []).
Proof. vm_compute. reflexivity. Qed.

(** A list element that is not an object: [file['fileName']] raises. *)
Example number_in_listing :
  @main (Demo.scripted "7" Demo.never) Runs.bucket_argv (initial ["y"]) =
  (Raised TypeError,
   mkState [Warning_are_you_sure] [list_command "bucket"] []).
Proof. vm_compute. reflexivity. Qed.

(** No line on standard input: [input()] raises. *)
Example no_answer :
  @main (Demo.scripted "" Demo.never) Runs.bucket_argv (initial []) =
  (Raised EOFError, mkState [Warning_are_you_sure] [] []).
Proof. vm_compute. reflexivity. Qed.

(** * Further properties of the selection *)

Lemma filter_filter_and {A} (p q : A -> bool) l :
  filter p (filter q l) = filter (fun x => q x && p x) l.
Proof.
  induction l as [|x l IH]; simpl; [reflexivity|].
  destruct (q x); simpl; [destruct (p x)|]; now rewrite IH.
Qed.

Lemma fold_add_key names acc :
  fold_left add_key names acc =
  acc ++ filter (fun m => negb (existsb (fun k' => k' =? m) acc))
                (first_occurrences names).
Proof.
  revert acc. induction names as [|n rest IH]; intros acc; simpl.
  - now rewrite app_nil_r.
  - rewrite IH. unfold add_key.
    destruct (existsb (fun k' => k' =? n) acc) eqn:E; simpl.
    + f_equal. rewrite filter_filter_and. apply filter_ext_in. intros m _.
      destruct (m =? n) eqn:Em; simpl; [|reflexivity].
      apply String.eqb_eq in Em. subst m. now rewrite E.
    + rewrite <- app_assoc. simpl. f_equal. f_equal.
      rewrite filter_filter_and. apply filter_ext_in. intros m _.
      rewrite existsb_app. simpl. rewrite orb_false_r, negb_orb.
      rewrite (String.eqb_sym n m). apply andb_comm.
Qed.

Lemma distinct_names_first_occurrences l :
  distinct_names l = first_occurrences (map fileName l).
Proof.
  unfold distinct_names. rewrite fold_add_key. simpl.
  induction (first_occurrences (map fileName l)) as [|n ns IH]; simpl;
    [reflexivity | now rewrite IH].
Qed.

(** The grouping of lines 65-67 yields one group per file name, the names
    in the order in which the listing first shows them, each group holding
    the records of its name in the order of the listing. *)
Theorem groups_in_listing_order (l : list VersionRecord) :
  group_records l =
  map (fun n => (n, filter (fun r => fileName r =? n) l))
      (first_occurrences (map fileName l)).
Proof.
  rewrite group_records_spec, distinct_names_first_occurrences. reflexivity.
Qed.

Lemma first_occurrences_NoDup names :
  NoDup names -> first_occurrences names = names.
Proof.
  induction 1 as [|n rest Hn _ IH]; simpl; [reflexivity|].
  rewrite IH. f_equal. apply forallb_filter_id, forallb_forall.
  intros m Hm. apply negb_true_iff, String.eqb_neq. congruence.
Qed.

Lemma versions_of_unique l r :
  NoDup (map fileName l) -> In r l -> versions_of (fileName r) l = [r].
Proof.
  induction l as [|x l IH]; simpl; intros Hnd Hin; [tauto|].
  inversion Hnd as [|? ? Hx Hl]; subst.
  destruct Hin as [-> | Hin].
  - rewrite String.eqb_refl. f_equal. now apply versions_of_absent.
  - destruct (fileName x =? fileName r) eqn:E.
    + apply String.eqb_eq in E. exfalso. apply Hx. rewrite E.
      now apply in_map.
    + now apply IH.
Qed.

Lemma group_records_unique l :
  NoDup (map fileName l) ->
  group_records l = map (fun r => (fileName r, [r])) l.
Proof.
  intros Hnd.
  rewrite group_records_spec, distinct_names_first_occurrences.
  rewrite (first_occurrences_NoDup _ Hnd), map_map.
  apply map_ext_in. intros r Hr. now rewrite versions_of_unique.
Qed.

Lemma singles_selection l :
  candidates (map (fun r => (fileName r, [r])) l) = [] /\
  retained (map (fun r => (fileName r, [r])) l) = l.
Proof.
  unfold candidates, retained.
  induction l as [|r l [IH1 IH2]]; simpl; [auto|].
  now rewrite IH1, IH2.
Qed.

Lemma first_greatest_In l r : first_greatest l = Some r -> In r l.
Proof.
  intros H. destruct (first_greatest_split l r H) as (pre & post & -> & _).
  apply in_elt.
Qed.

Lemma versions_of_In n l r : In r (versions_of n l) <-> In r l /\ fileName r = n.
Proof.
  unfold versions_of. rewrite filter_In, String.eqb_eq. reflexivity.
Qed.

Lemma retained_names l :
  map fileName (retained (group_records l)) = distinct_names l.
Proof.
  pose proof (retained_per_name l) as H.
  induction H as [|n r ns rs Hr _ IH]; simpl; [reflexivity|].
  rewrite IH. f_equal.
  apply first_greatest_In, versions_of_In in Hr. tauto.
Qed.

(** The selection is idempotent: among the records a run keeps, a second
    selection finds no candidate and keeps them all. *)
Theorem second_selection_is_empty (l : list VersionRecord) :
  let kept := retained (group_records l) in
  candidates (group_records kept) = [] /\
  retained (group_records kept) = kept.
Proof.
  cbv zeta.
  rewrite group_records_unique.
  - apply singles_selection.
  - rewrite retained_names. apply distinct_names_NoDup.
Qed.






Lemma sorted_desc_of_sorted l :
  StronglySorted not_older l -> sorted_desc l = l.
Proof.
  induction 1 as [|x l Hs IH Hx]; [reflexivity|].
  rewrite sorted_desc_cons, IH.
  destruct l as [|y l]; [reflexivity|]. simpl.
  inversion Hx as [|? ? Hy _]; subst. unfold not_older in Hy.
  apply Z.leb_le in Hy. now rewrite Hy.
Qed.

(** Sorting a group twice is sorting it once, and a group that is already
    listed newest first is left as it is (the equal timestamps included). *)
Theorem sort_is_idempotent (versions : list VersionRecord) :
  sorted_desc (sorted_desc versions) = sorted_desc versions /\
  (StronglySorted not_older versions -> sorted_desc versions = versions).
Proof.
  split.
  - apply sorted_desc_of_sorted, sorted_desc_sorted.
  - apply sorted_desc_of_sorted.
Qed.

Lemma sort_is_idempotent_witness :
  sorted_desc [Demo.a300; Demo.a200; Demo.a100] =
  [Demo.a300; Demo.a200; Demo.a100].
Proof.
  apply (proj2 (sort_is_idempotent [Demo.a300; Demo.a200; Demo.a100])).
  repeat constructor; unfold not_older; simpl; lia.
Defined.

Lemma strictly_sorted l :
  StronglySorted not_older l -> NoDup (map uploadTimestamp l) ->
  StronglySorted newer l.
Proof.
  induction 1 as [|x l Hs IH Hx]; intros Hnd; [constructor|].
  simpl in Hnd. inversion Hnd as [|? ? Hnin Hnd']; subst.
  constructor; [now apply IH|].
  rewrite Forall_forall in *. intros y Hy.
  specialize (Hx y Hy). unfold not_older in Hx. unfold newer.
  assert (uploadTimestamp y <> uploadTimestamp x).
  { intros E. apply Hnin. rewrite <- E. now apply in_map. }
  lia.
Qed.

Lemma strictly_sorted_unique l1 l2 :
  StronglySorted newer l1 -> StronglySorted newer l2 ->
  Permutation l1 l2 -> l1 = l2.
Proof.
  intros H1. revert l2. induction H1 as [|a t1 Hs1 IH Ha]; intros l2 H2 P.
  - now apply Permutation_nil in P.
  - destruct l2 as [|b t2].
    + apply Permutation_sym, Permutation_nil in P. discriminate.
    + inversion H2 as [|? ? Hs2 Hb]; subst.
      rewrite Forall_forall in Ha, Hb. unfold newer in *.
      assert (a = b).
      { assert (In a (b :: t2)) as [E|Hin]
          by (eapply Permutation_in; [exact P | now left]); [now subst|].
        assert (In b (a :: t1)) as [E|Hin']
          by (eapply Permutation_in; [exact (Permutation_sym P) | now left]);
          [now subst|].
        specialize (Ha b Hin'). specialize (Hb a Hin). lia. }
      subst b. f_equal. apply IH; [exact Hs2|].
      now apply Permutation_cons_inv in P.
Qed.

(** With timestamps that are all different a group has one sorted order. *)
Lemma sorted_desc_any_order (versions versions' : list VersionRecord) :
  Permutation versions versions' ->
  NoDup (map uploadTimestamp versions) ->
  sorted_desc versions = sorted_desc versions' /\
  newest versions = newest versions' /\
  old_versions versions = old_versions versions'.
Proof.
  intros P Hnd.
  assert (E : sorted_desc versions = sorted_desc versions').
  { apply strictly_sorted_unique.
    - apply strictly_sorted; [apply sorted_desc_sorted|].
      eapply Permutation_NoDup; [|exact Hnd].
      apply Permutation_map, Permutation_sym, sorted_desc_perm.
    - apply strictly_sorted; [apply sorted_desc_sorted|].
      eapply Permutation_NoDup; [|exact Hnd].
      apply Permutation_map.
      eapply Permutation_trans; [exact P|].
      apply Permutation_sym, sorted_desc_perm.
    - eapply Permutation_trans; [apply sorted_desc_perm|].
      eapply Permutation_trans; [exact P|].
      apply Permutation_sym, sorted_desc_perm. }
  unfold newest, old_versions. now rewrite E.
Qed.

Lemma Permutation_filter' {A} (p : A -> bool) l l' :
  Permutation l l' -> Permutation (filter p l) (filter p l').
Proof.
  induction 1 as [|x l l' _ IH|x y l|l l' l'' _ IH1 _ IH2]; simpl.
  - constructor.
  - destruct (p x); [now constructor | exact IH].
  - destruct (p x), (p y); try reflexivity. apply perm_swap.
  - now transitivity (filter p l').
Qed.

Lemma flat_map_ext_in {A B} (f g : A -> list B) l :
  (forall a, In a l -> f a = g a) -> flat_map f l = flat_map g l.
Proof.
  induction l as [|x l IH]; intros H; simpl; [reflexivity|].
  rewrite (H x) by now left. rewrite IH; [reflexivity|].
  intros a Ha. apply H. now right.
Qed.

Lemma versions_of_distinct_times n l :
  NoDup (map (fun r => (fileName r, uploadTimestamp r)) l) ->
  NoDup (map uploadTimestamp (versions_of n l)).
Proof.
  induction l as [|x l IH]; simpl; intros Hnd; [constructor|].
  inversion Hnd as [|? ? Hx Hl]; subst.
  destruct (fileName x =? n) eqn:E; [|now apply IH].
  apply String.eqb_eq in E. simpl. constructor; [|now apply IH].
  intros Hin. apply in_map_iff in Hin. destruct Hin as (y & Hy & Hyin).
  apply versions_of_In in Hyin. destruct Hyin as [Hyl Hyn].
  apply Hx. apply in_map_iff. exists y. split; [|exact Hyl].
  now rewrite Hy, Hyn, E.
Qed.

Lemma distinct_names_perm l l' :
  Permutation l l' -> Permutation (distinct_names l) (distinct_names l').
Proof.
  intros P. apply NoDup_Permutation; try apply distinct_names_NoDup.
  intros n. rewrite !distinct_names_In.
  split; apply Permutation_in; [|apply Permutation_sym];
    now apply Permutation_map.
Qed.

(** When no two records of a listing share both name and timestamp, the
    versions kept and the versions deleted do not depend on the order of the
    listing: listing the same records in another order gives the same
    candidates and the same kept records, in some order. *)
Theorem selection_ignores_listing_order (l l' : list VersionRecord) :
  Permutation l l' ->
  NoDup (map (fun r => (fileName r, uploadTimestamp r)) l) ->
  (forall n, sorted_desc (versions_of n l) = sorted_desc (versions_of n l')) /\
  Permutation (candidates (group_records l)) (candidates (group_records l')) /\
  Permutation (retained (group_records l)) (retained (group_records l')).
Proof.
  intros P Hnd.
  assert (Hall : forall n,
            sorted_desc (versions_of n l) = sorted_desc (versions_of n l') /\
            newest (versions_of n l) = newest (versions_of n l') /\
            old_versions (versions_of n l) = old_versions (versions_of n l')).
  { intros n.
    apply (sorted_desc_any_order (versions_of n l) (versions_of n l')).
    - now apply Permutation_filter'.
    - now apply versions_of_distinct_times. }
  assert (Hs : forall n, newest (versions_of n l) = newest (versions_of n l') /\
                         old_versions (versions_of n l) =
                         old_versions (versions_of n l'))
    by (intros n; apply Hall).
  split; [intros n; apply Hall|].
  split.
  - rewrite !candidates_spec.
    rewrite (flat_map_ext_in _
               (fun n => map (pair n) (old_versions (versions_of n l'))))
      by (intros n _; now rewrite (proj2 (Hs n))).
    apply Permutation_flat_map, distinct_names_perm, P.
  - rewrite !retained_spec.
    rewrite (flat_map_ext_in _
               (fun n => match first_greatest (versions_of n l') with
                         | Some r => [r]
                         | None => []
                         end))
      by (intros n _; now rewrite <- !newest_first_greatest, (proj1 (Hs n))).
    apply Permutation_flat_map, distinct_names_perm, P.
Qed.

Lemma selection_ignores_listing_order_witness :
  Permutation
    (candidates (group_records [Demo.a100; Demo.b100; Demo.a300; Demo.a200]))
    (candidates (group_records [Demo.a200; Demo.a100; Demo.b100; Demo.a300])).
Proof.
  refine (proj1 (proj2 (selection_ignores_listing_order
                   [Demo.a100; Demo.b100; Demo.a300; Demo.a200]
                   [Demo.a200; Demo.a100; Demo.b100; Demo.a300] _ _))).
  - exact (Permutation_sym
             (Permutation_cons_append
                [Demo.a100; Demo.b100; Demo.a300] Demo.a200)).
  - simpl. repeat constructor; simpl; intuition discriminate.
Defined.

(** * Further properties of the runs *)

Section FurtherRuns.
Context {rt : Runtime}.

(** ** Parsing the listing *)

Lemma loads_lines_nonblank lines :
  loads_lines lines = loads_lines (filter nonblank lines).
Proof.
  induction lines as [|l rest IH]; simpl; [reflexivity|].
  unfold nonblank at 1. destruct (strip l =? "") eqn:E; simpl.
  - exact IH.
  - rewrite E. now rewrite IH.
Qed.

Lemma loads_lines_inl lines vs :
  loads_lines lines = inl vs <->
  Forall2 (fun l v => json_loads l = Loaded v) (filter nonblank lines) vs.
Proof.
  revert vs. induction lines as [|l rest IH]; intros vs; simpl.
  - split.
    + intros H. inversion H. constructor.
    + intros H. inversion H. reflexivity.
  - unfold nonblank at 1. destruct (strip l =? "") eqn:E; simpl; [apply IH|].
    destruct (json_loads l) as [v|msg] eqn:El.
    + destruct (loads_lines rest) as [vs'|msg'] eqn:Er.
      * split.
        -- intros H. inversion H; subst. constructor; [exact El|].
           now apply IH.
        -- intros H. inversion H as [|? v' ? vs'' Hv Hrest]; subst.
           apply IH in Hrest. rewrite El in Hv. congruence.
      * split; [discriminate|].
        intros H. inversion H as [|? v' ? vs'' Hv Hrest]; subst.
        apply IH in Hrest. discriminate.
    + split; [discriminate|].
      intros H. inversion H as [|? v' ? vs'' Hv Hrest]; subst. congruence.
Qed.

Lemma loads_lines_inr good bad rest vs msg :
  loads_lines good = inl vs ->
  nonblank bad = true ->
  json_loads bad = JSONDecodeError msg ->
  loads_lines (good ++ bad :: rest) = inr msg.
Proof.
  revert vs. induction good as [|l good IH]; intros vs Hgood Hnb Hbad; simpl.
  - unfold nonblank in Hnb. apply negb_true_iff in Hnb. now rewrite Hnb, Hbad.
  - simpl in Hgood. destruct (strip l =? "").
    + now apply (IH vs).
    + destruct (json_loads l) as [v|]; [|discriminate].
      destruct (loads_lines good) as [vs'|] eqn:E; [|discriminate].
      now rewrite (IH vs' eq_refl Hnb Hbad).
Qed.

(** The list comprehension of line 45 skips the lines that are blank once
    stripped and succeeds exactly when every other line parses, with the
    parsed values in the order of the lines; otherwise the error is that of
    the first line that does not parse, the lines after it not being looked
    at. *)
Theorem lines_parse_one_by_one (lines : list string) :
  loads_lines lines = loads_lines (filter nonblank lines) /\
  (forall vs,
     loads_lines lines = inl vs <->
     Forall2 (fun l v => json_loads l = Loaded v) (filter nonblank lines) vs) /\
  (forall good bad rest vs msg,
     lines = good ++ bad :: rest ->
     loads_lines good = inl vs ->
     nonblank bad = true ->
     json_loads bad = JSONDecodeError msg ->
     loads_lines lines = inr msg).
Proof.
  split; [apply loads_lines_nonblank|]. split.
  - intros vs. apply loads_lines_inl.
  - intros good bad rest vs msg -> Hg Hn Hb.
    now apply (loads_lines_inr good bad rest vs msg).
Qed.

(** ** Fatal errors of the listing *)

(** When the listing command exits nonzero, in a dry run as in a live one,
    the script prints the command and its error output and exits with
    status 1; the listing is the only command run and nothing is parsed. *)
Theorem failed_listing_stops_run (argv : list string) (s0 s' : state)
    (err : string) :
  (2 <= length argv <= 3)%nat ->
  start_state argv s0 = Some s' ->
  subprocess_run (calls s') (list_command (nth 1 argv ""))
    = CalledProcessError err ->
  main argv s0 =
    (SysExit 1,
     log s' [Error_executing_command (list_command (nth 1 argv ""));
             Error_output err]
            [list_command (nth 1 argv "")]).
Proof.
  intros Hlen Hstart Hrun.
  rewrite (main_proceeds argv s0 s' Hlen Hstart).
  unfold delete_old_versions, get_file_versions, bind.
  now rewrite (run_command_failed _ err).
Qed.

(** When the output parses neither line by line nor as one document, the
    script prints the decoding error of the first bad line, the notice of
    the second attempt and the final diagnostic, and exits with status 1
    without running a delete. *)
Theorem unparseable_listing_stops_run (argv : list string) (s0 s' : state)
    (out e e' : string) :
  (2 <= length argv <= 3)%nat ->
  start_state argv s0 = Some s' ->
  subprocess_run (calls s') (list_command (nth 1 argv "")) = Completed out ->
  loads_lines (splitlines out) = inr e ->
  json_loads out = JSONDecodeError e' ->
  main argv s0 =
    (SysExit 1,
     log s' [Error_decoding_JSON e; Attempting_single_object; Failed_to_parse]
            [list_command (nth 1 argv "")]).
Proof.
  intros Hlen Hstart Hrun Hlines Hwhole.
  rewrite (main_proceeds argv s0 s' Hlen Hstart).
  unfold delete_old_versions, get_file_versions, bind.
  rewrite (run_command_completed _ out) by exact Hrun.
  rewrite Hlines, !print_log, Hwhole, print_log. unfold sys_exit.
  now rewrite !log_log.
Qed.

(** ** What a run never does *)

Lemma group_versions_state l files s : snd (group_versions l files s) = s.
Proof.
  revert files. induction l as [|v l IH]; intros files; simpl; [reflexivity|].
  destruct v; try reflexivity. apply IH.
Qed.

Lemma group_versions_not_dict l files s :
  (exists v, In v l /\ type_of v <> type_dict) ->
  group_versions l files s = (Raised TypeError, s).
Proof.
  revert files. induction l as [|x l IH]; intros files (v & Hin & Hv).
  - destruct Hin.
  - simpl. destruct x; try reflexivity.
    apply IH. exists v. split; [|exact Hv].
    destruct Hin as [<- | Hin]; [simpl in Hv; congruence | exact Hin].
Qed.

(** A listing with an element that is not an object (a number, a string, a
    list, [null]) raises [TypeError] while the groups are built, in a dry run
    as in a live one: nothing is printed and no delete is run, whatever the
    other elements are. *)
Theorem malformed_element_deletes_nothing (bucket : string) (dry_run : bool)
    (l : list pyvalue) (s : state) :
  (exists v, In v l /\ type_of v <> type_dict) ->
  prune bucket dry_run (PyList l) s = (Raised TypeError, s).
Proof.
  intros H. unfold prune.
  assert (truthy (PyList l) = true) as ->.
  { destruct l; [destruct H as (v & [] & _) | reflexivity]. }
  cbn [negb]. unfold bind. now rewrite (group_versions_not_dict l [] s H).
Qed.

Lemma prune_dry_frame bucket v s :
  calls (snd (prune bucket true v s)) = calls s /\
  stdin (snd (prune bucket true v s)) = stdin s.
Proof.
  unfold prune.
  destruct (negb (truthy v)); [split; simpl; auto|].
  destruct v;
    try (rewrite delete_and_report_dry; simpl; now rewrite app_nil_r);
    try (split; simpl; auto; fail).
  unfold bind. pose proof (group_versions_state l [] s) as Hs.
  destruct (group_versions l [] s) as [[files|c|e] s1]; simpl in Hs; subst s1;
    try (split; reflexivity).
  rewrite delete_and_report_dry. simpl. now rewrite app_nil_r.
Qed.

Lemma get_file_versions_stdin bucket s :
  stdin (snd (get_file_versions bucket s)) = stdin s.
Proof.
  unfold get_file_versions, bind, run_command.
  destruct (subprocess_run (calls s) (list_command bucket)); [|reflexivity].
  destruct (loads_lines (splitlines out)); [reflexivity|].
  unfold print, sys_exit, ret. simpl.
  destruct (json_loads out); reflexivity.
Qed.

(** A dry run runs the listing command and no other, and reads nothing from
    standard input, whatever the listing command answers and whatever its
    output holds. *)
Theorem dry_run_runs_only_listing (argv : list string) (s : state) :
  (2 <= length argv <= 3)%nat ->
  existsb (String.eqb "--dry-run") argv = true ->
  calls (snd (main argv s)) = calls s ++ [list_command (nth 1 argv "")] /\
  stdin (snd (main argv s)) = stdin s.
Proof.
  intros Hlen Hdry.
  rewrite (main_proceeds argv s
             (mkState (printed s ++ [Dry_run_notice]) (calls s) (stdin s)) Hlen)
    by (unfold start_state; now rewrite Hdry).
  rewrite Hdry. unfold delete_old_versions, bind.
  pose proof (get_file_versions_calls (nth 1 argv "")
                (mkState (printed s ++ [Dry_run_notice]) (calls s) (stdin s)))
    as Hc.
  pose proof (get_file_versions_stdin (nth 1 argv "")
                (mkState (printed s ++ [Dry_run_notice]) (calls s) (stdin s)))
    as Hi.
  destruct (get_file_versions (nth 1 argv "") _) as [[v|c|e] s1];
    simpl in Hc, Hi; try (split; assumption).
  destruct (prune_dry_frame (nth 1 argv "") v s1) as [H1 H2].
  rewrite H1, H2. now split.
Qed.

(** ** The live loop, whatever the delete calls answer *)

(** A live pass over the groups ends in one of two ways.  Either every
    delete call completes: one line and one command per candidate, then the
    total, which is the number of candidates.  Or the pass stops at the first
    call that exits nonzero: a line and a command for each candidate up to
    that one, the two lines of the error, exit status 1 and no total. *)
Theorem live_pass_completes_or_stops (files : groups) (s : state) :
  (deletes_complete (calls s) (candidates files) = true /\
   delete_and_report false files s =
     (Return tt,
      log s (map deleting_line (candidates files) ++
             [Total_deleted (length (candidates files))])
            (map candidate_command (candidates files)))) \/
  (exists pre c post err,
     candidates files = pre ++ c :: post /\
     deletes_complete (calls s) pre = true /\
     subprocess_run (calls s ++ map candidate_command pre) (candidate_command c)
       = CalledProcessError err /\
     delete_and_report false files s =
       (SysExit 1,
        log s (map deleting_line (pre ++ [c]) ++
               [Error_executing_command (candidate_command c);
                Error_output err])
              (map candidate_command (pre ++ [c])))).
Proof.
  destruct (deletes_complete (calls s) (candidates files)) eqn:E.
  - left. split; [reflexivity|]. now apply delete_and_report_complete.
  - right. destruct (deletes_incomplete _ _ E)
      as (pre & c & post & err & Hcs & Hpre & Hc).
    exists pre, c, post, err. repeat split; auto.
    now apply (delete_and_report_failure files pre c post err s).
Qed.

(** A listing in which every file name occurs once: nothing is deleted and
    the total is 0, in a dry run as in a live one, and no command is run. *)
Theorem single_versions_nothing_deleted (bucket : string) (dry_run : bool)
    (r : VersionRecord) (l : list VersionRecord) (s : state) :
  NoDup (map fileName (r :: l)) ->
  prune bucket dry_run (PyList (map PyDict (r :: l))) s =
  (Return tt,
   log s [if dry_run then Total_would_be_deleted 0 else Total_deleted 0] []).
Proof.
  intros Hnd. rewrite prune_records.
  assert (Hc : candidates (group_records (r :: l)) = []).
  { rewrite (group_records_unique _ Hnd). apply singles_selection. }
  destruct dry_run.
  - now rewrite delete_and_report_dry, Hc.
  - rewrite delete_and_report_complete; now rewrite Hc.
Qed.

(** ** The exit status *)

Lemma exits_bind {A B} (m : M A) (k : A -> M B) :
  exits_1 m -> (forall a, exits_1 (k a)) -> exits_1 (bind m k).
Proof.
  intros Hm Hk s c s'. unfold bind.
  destruct (m s) as [[a|c0|e] s1] eqn:E; intros H.
  - exact (Hk a s1 c s' H).
  - inversion H; subst. exact (Hm s c s' E).
  - discriminate.
Qed.

Lemma exits_print l : exits_1 (print l).
Proof. intros s c s' H. discriminate. Qed.

Lemma exits_ret {A} (a : A) : exits_1 (ret a).
Proof. intros s c s' H. discriminate. Qed.

Lemma exits_run_command c : exits_1 (run_command c).
Proof.
  intros s c0 s'. unfold run_command.
  destruct (subprocess_run (calls s) c); [discriminate|].
  unfold bind, print, sys_exit. simpl. intros H. now inversion H.
Qed.

Lemma exits_for_each {A B} (l : list A) (body : B -> A -> M B) :
  (forall b a, exits_1 (body b a)) ->
  forall acc, exits_1 (for_each l body acc).
Proof.
  intros Hb. induction l as [|x l IH]; intros acc; simpl.
  - apply exits_ret.
  - apply exits_bind; [apply Hb | exact IH].
Qed.

Lemma exits_delete_and_report dry_run files :
  exits_1 (delete_and_report dry_run files).
Proof.
  unfold delete_and_report. apply exits_bind.
  - apply exits_for_each. intros n [name vs]. unfold delete_group.
    apply exits_for_each. intros n' v. unfold delete_version.
    apply exits_bind; [|intros; apply exits_ret].
    destruct dry_run; [apply exits_print|].
    apply exits_bind; [apply exits_print|]. intros _.
    apply exits_bind; [apply exits_run_command | intros; apply exits_ret].
  - intros n. destruct dry_run; apply exits_print.
Qed.

Lemma exits_group_versions l files : exits_1 (group_versions l files).
Proof.
  intros s c s' H. exfalso.
  revert files H. induction l as [|v l IH]; intros files H; simpl in *.
  - discriminate.
  - destruct v; try discriminate. exact (IH _ H).
Qed.

Lemma exits_delete_old_versions bucket dry_run :
  exits_1 (delete_old_versions bucket dry_run).
Proof.
  unfold delete_old_versions. apply exits_bind.
  - unfold get_file_versions. apply exits_bind; [apply exits_run_command|].
    intros out. destruct (loads_lines (splitlines out)); [apply exits_ret|].
    apply exits_bind; [apply exits_print|]. intros _.
    apply exits_bind; [apply exits_print|]. intros _.
    destruct (json_loads out); [apply exits_ret|].
    apply exits_bind; [apply exits_print|]. intros _ s1 c s' H.
    now inversion H.
  - intros v. unfold prune. destruct (negb (truthy v)); [apply exits_print|].
    destruct v; try apply exits_print.
    + apply exits_bind; [apply exits_group_versions|].
      intros files. apply exits_delete_and_report.
    + apply exits_delete_and_report.
Qed.

(** Whatever the arguments, the answer, the commands and their output, the
    process ends with status 0 or 1.  The script leaves early with status 0
    in one case only: a live run whose answer does not lower-case to [y];
    it has then printed the warning and the cancellation and run no command.
    Every other [sys.exit] is with status 1. *)
Theorem exit_status_is_0_or_1 (argv : list string) (s : state) :
  (exit_code (fst (main argv s)) = 0%Z \/ exit_code (fst (main argv s)) = 1%Z) /\
  (forall c, fst (main argv s) = SysExit c -> c <> 1%Z ->
     c = 0%Z /\
     existsb (String.eqb "--dry-run") argv = false /\
     exists answer rest,
       stdin s = answer :: rest /\ lower answer <> "y" /\
       snd (main argv s) =
         mkState (printed s ++ [Warning_are_you_sure; Operation_cancelled])
                 (calls s) rest).
Proof.
  assert (H : forall c, fst (main argv s) = SysExit c -> c <> 1%Z ->
     c = 0%Z /\
     existsb (String.eqb "--dry-run") argv = false /\
     exists answer rest,
       stdin s = answer :: rest /\ lower answer <> "y" /\
       snd (main argv s) =
         mkState (printed s ++ [Warning_are_you_sure; Operation_cancelled])
                 (calls s) rest).
  { intros c. unfold main.
    destruct ((length argv <? 2)%nat || (3 <? length argv)%nat).
    - unfold bind, print, sys_exit. simpl. intros E. inversion E. congruence.
    - unfold bind at 1, confirm.
      destruct (existsb (String.eqb "--dry-run") argv).
      + rewrite print_log. intros E Hc. exfalso. apply Hc.
        destruct (delete_old_versions (nth 1 argv "") true (log s [Dry_run_notice] []))
          as [o s1] eqn:Ed. simpl in E. subst o.
        exact (exits_delete_old_versions _ _ _ _ _ Ed).
      + unfold bind, print, input. cbn [stdin printed calls].
        destruct (stdin s) as [|answer rest] eqn:Hin; [discriminate|].
        destruct (lower answer =? "y") eqn:Ey; cbn [negb].
        * unfold ret. intros E Hc. exfalso. apply Hc.
          destruct (delete_old_versions (nth 1 argv "") false
                      (mkState (printed s ++ [Warning_are_you_sure])
                               (calls s) rest))
            as [o s1] eqn:Ed. simpl in E. subst o.
          exact (exits_delete_old_versions _ _ _ _ _ Ed).
        * unfold sys_exit. simpl. intros E _. inversion E.
          repeat split. exists answer, rest. repeat split.
          -- now apply String.eqb_neq.
          -- now rewrite <- app_assoc. }
  split; [|exact H].
  destruct (fst (main argv s)) as [[]|c|e] eqn:E; simpl; auto.
  destruct (Z.eq_dec c 1) as [-> | Hc]; [now right|].
  left. now apply (H c eq_refl).
Qed.

End FurtherRuns.

(** * The further properties on concrete runs *)


Lemma lines_parse_one_by_one_witness :
  @loads_lines (Demo.scripted "" Demo.never)
    [Demo.object_text "a.txt" "id-a100" "100"; ""; "{"; "7"] =
  inr "not a JSON document".
Proof.
  refine (proj2 (proj2 (@lines_parse_one_by_one (Demo.scripted "" Demo.never)
            [Demo.object_text "a.txt" "id-a100" "100"; ""; "{"; "7"]))
            [Demo.object_text "a.txt" "id-a100" "100"; ""] "{" ["7"]
            [PyDict Demo.a100] "not a JSON document" _ _ _ _).
  - reflexivity.
  - vm_compute. reflexivity.
  - reflexivity.
  - vm_compute. reflexivity.
Defined.

Lemma failed_listing_stops_run_witness :
  @main (Demo.scripted "" (fun n => (n =? 0)%nat))
        ["delete.py"; "bucket"; "--dry-run"] (initial []) =
  (SysExit 1,
   log (mkState [Dry_run_notice] [] [])
       [Error_executing_command (list_command "bucket");
        Error_output "simulated failure"]
       [list_command "bucket"]).
Proof.
  refine (@failed_listing_stops_run (Demo.scripted "" (fun n => (n =? 0)%nat))
            ["delete.py"; "bucket"; "--dry-run"] (initial [])
            (mkState [Dry_run_notice] [] []) "simulated failure" _ _ _).
  - simpl. lia.
  - reflexivity.
  - reflexivity.
Defined.

Lemma unparseable_listing_stops_run_witness :
  @main (Demo.scripted "{" Demo.never) Runs.bucket_argv (initial ["y"]) =
  (SysExit 1,
   log (Runs.warned [])
       [Error_decoding_JSON "not a JSON document"; Attempting_single_object;
        Failed_to_parse]
       [list_command "bucket"]).
Proof.
  refine (@unparseable_listing_stops_run (Demo.scripted "{" Demo.never)
            Runs.bucket_argv (initial ["y"]) (Runs.warned [])
            "{" "not a JSON document" "not a JSON document" _ _ _ _ _).
  - simpl. lia.
  - reflexivity.
  - reflexivity.
  - vm_compute. reflexivity.
  - vm_compute. reflexivity.
Defined.

Lemma malformed_element_deletes_nothing_witness :
  @prune (Demo.scripted "" Demo.never) "bucket" false
         (PyList [PyDict Demo.a100; PyDict Demo.a300; PyInt 7])
         (initial []) =
  (Raised TypeError, initial []).
Proof.
  refine (@malformed_element_deletes_nothing (Demo.scripted "" Demo.never)
            "bucket" false [PyDict Demo.a100; PyDict Demo.a300; PyInt 7]
            (initial []) _).
  exists (PyInt 7). split; [simpl; tauto | discriminate].
Defined.

Lemma dry_run_runs_only_listing_witness :
  calls (snd (@main Runs.third_delete_fails
                    ["delete.py"; "--dry-run"; "bucket"] (initial ["y"]))) =
    [list_command "--dry-run"] /\
  stdin (snd (@main Runs.third_delete_fails
                    ["delete.py"; "--dry-run"; "bucket"] (initial ["y"]))) =
    ["y"].
Proof.
  refine (@dry_run_runs_only_listing Runs.third_delete_fails
            ["delete.py"; "--dry-run"; "bucket"] (initial ["y"]) _ _).
  - simpl. lia.
  - reflexivity.
Defined.

Lemma single_versions_nothing_deleted_witness :
  @prune (Demo.scripted "" Demo.never) "bucket" false
         (PyList (map PyDict [Demo.a100; Demo.b100])) (initial []) =
  (Return tt, log (initial []) [Total_deleted 0] []).
Proof.
  refine (@single_versions_nothing_deleted (Demo.scripted "" Demo.never)
            "bucket" false Demo.a100 [Demo.b100] (initial []) _).
  simpl. repeat constructor; simpl; intuition discriminate.
Defined.

Lemma exit_status_is_0_or_1_witness :
  exists answer rest,
    stdin (initial ["no"]) = answer :: rest /\ lower answer <> "y" /\
    snd (@main (Demo.scripted Demo.listing_A Demo.never) Runs.bucket_argv
               (initial ["no"])) =
      mkState (printed (initial ["no"]) ++
               [Warning_are_you_sure; Operation_cancelled])
              (calls (initial ["no"])) rest.
Proof.
  refine (proj2 (proj2 (proj2 (@exit_status_is_0_or_1
            (Demo.scripted Demo.listing_A Demo.never) Runs.bucket_argv
            (initial ["no"])) 0%Z _ _))).
  - reflexivity.
  - discriminate.
Defined.
